(** * ClaudeVersionSelector: the installation list and its selection

    A shallow embedding of [src/components/ClaudeVersionSelector.tsx]: the
    component state kept by the [useState] hooks, the two collaborators it
    calls ([api.listClaudeInstallations], [api.setClaudeBinaryPath]), the
    caller's [onSelect] callback, and the handlers [loadInstallations],
    [handleSelect], [addManualInstallation], [handleBrowseFile],
    [getSourceLabel] together with the [selectedPath] effect.

    Handlers are written in a small state-and-exception monad so that the
    [try]/[catch]/[finally] blocks of the source keep their shape.  Every call
    that leaves the component (collaborator calls, [onSelect],
    [console.error]) is recorded in a trace. *)

From Stdlib Require Import Ascii String NArith.
From stdpp Require Import base decidable option list sorting.

Local Open Scope N_scope.

(** ** JavaScript strings *)

(** A JavaScript string is a sequence of UTF-16 code units; [===] on strings
    is equality of these sequences. *)
Definition jsstring : Type := list N.

(** The code units of an ASCII literal. *)
Definition js (s : string) : jsstring := N_of_ascii <$> list_ascii_of_string s.

(** [WhiteSpace] and [LineTerminator] code points of ECMAScript, the ones
    [String.prototype.trim] strips.  All of them are single code units. *)
Definition isWhiteSpace (c : N) : bool :=
  (c =? 0x09) || (c =? 0x0A) || (c =? 0x0B) || (c =? 0x0C) || (c =? 0x0D)
  || (c =? 0x20) || (c =? 0xA0) || (c =? 0x1680)
  || ((0x2000 <=? c) && (c <=? 0x200A))
  || (c =? 0x2028) || (c =? 0x2029) || (c =? 0x202F) || (c =? 0x205F)
  || (c =? 0x3000) || (c =? 0xFEFF).

Fixpoint trimStart (s : jsstring) : jsstring :=
  match s with
  | c :: s' => if isWhiteSpace c then trimStart s' else s
  | [] => []
  end.

Definition trimEnd (s : jsstring) : jsstring := reverse (trimStart (reverse s)).

(** [s.trim()] *)
Definition trim (s : jsstring) : jsstring := trimEnd (trimStart s).

(** [s.startsWith(p)] *)
Fixpoint startsWith (p s : jsstring) : bool :=
  match p, s with
  | [], _ => true
  | a :: p', b :: s' => (a =? b) && startsWith p' s'
  | _ :: _, [] => false
  end.

(** [s.replace(pat, rep)] for a string pattern and a replacement without
    [$]: the first occurrence of [pat] is replaced. *)
Fixpoint replace (pat rep s : jsstring) : jsstring :=
  if startsWith pat s then rep ++ drop (length pat) s
  else match s with
       | c :: s' => c :: replace pat rep s'
       | [] => []
       end.

(** [!!s] for a string: only the empty string is falsy. *)
Definition truthy (s : jsstring) : bool :=
  match s with [] => false | _ :: _ => true end.

(** ** Data model *)

(** [ClaudeInstallation] of [@/lib/api]: [version] is optional, [source] is
    an open string. *)
Record ClaudeInstallation : Type := {
  path : jsstring;
  version : option jsstring;
  source : jsstring;
}.

#[global] Instance ClaudeInstallation_eq_dec : EqDecision ClaudeInstallation.
Proof. solve_decision. Defined.

(** A value thrown by a collaborator: an [Error] object with its [message],
    or any other value (Tauri rejects with a plain string). *)
Inductive Thrown : Type :=
  | ThrownError (message : jsstring)
  | ThrownValue (payload : jsstring).

(** [err instanceof Error ? err.message : fallback] *)
Definition errorMessage (err : Thrown) (fallback : jsstring) : jsstring :=
  match err with
  | ThrownError message => message
  | ThrownValue _ => fallback
  end.

(** The outcome of an awaited promise. *)
Inductive Settled (A : Type) : Type :=
  | Fulfilled (a : A)
  | Rejected (e : Thrown).
Arguments Fulfilled {A} a.
Arguments Rejected {A} e.

(** The collaborators the component awaits: the two [api] calls and the
    file dialog of [@tauri-apps/plugin-dialog] ([open] may be missing outside
    the desktop app; with [multiple: false] it resolves to a path or
    [null]). *)
Record Api : Type := {
  listClaudeInstallations : Settled (list ClaudeInstallation);
  setClaudeBinaryPath : jsstring → Settled unit;
  openIsFunction : bool;
  open : Settled (option jsstring);
}.

(** The props the handlers read. [null] and [undefined] are [None]. *)
Record Props : Type := {
  selectedPath : option jsstring;
}.

(** The six [useState] cells. *)
Record State : Type := {
  installations : list ClaudeInstallation;
  loading : bool;
  error : option jsstring;
  selectedInstallation : option ClaudeInstallation;
  manualPath : jsstring;
  isValidatingManualPath : bool;
}.

(** The state of the first render. *)
Definition initialState : State := {|
  installations := [];
  loading := true;
  error := None;
  selectedInstallation := None;
  manualPath := [];
  isValidatingManualPath := false;
|}.

(** What the outside observes, in the order it happens. *)
Inductive Event : Type :=
  | CallListClaudeInstallations
  | CallSetClaudeBinaryPath (p : jsstring)
  | CallOpen
  | OnSelect (installation : ClaudeInstallation)
  | ConsoleError (label : jsstring) (e : Thrown).

Record World : Type := {
  state : State;
  trace : list Event;
}.

Definition initialWorld : World := {| state := initialState; trace := [] |}.

(** ** The handler monad *)

(** A handler threads the world and may complete abruptly with a thrown
    value.  It runs from start to end in one piece: what other handlers might
    do while this one waits at an [await] is not part of the model. *)

Inductive Completion (A : Type) : Type :=
  | Normal (a : A)
  | Abrupt (e : Thrown).
Arguments Normal {A} a.
Arguments Abrupt {A} e.

Definition Handler (A : Type) : Type := World → Completion A * World.

#[global] Instance Handler_ret : MRet Handler := λ A a w, (Normal a, w).

#[global] Instance Handler_bind : MBind Handler := λ A B f m w,
  match m w with
  | (Normal a, w') => f a w'
  | (Abrupt e, w') => (Abrupt e, w')
  end.

(** [try { body } catch (e) { handler e } finally { fin }] *)
Definition tryCatchFinally {A} (body : Handler A) (handler : Thrown → Handler A)
    (fin : Handler unit) : Handler A := λ w,
  let '(c, w1) :=
    match body w with
    | (Normal a, w') => (Normal a, w')
    | (Abrupt e, w') => handler e w'
    end in
  match fin w1 with
  | (Normal _, w2) => (c, w2)
  | (Abrupt e, w2) => (Abrupt e, w2)
  end.

(** [try { body } catch (e) { handler e }] *)
Definition tryCatch {A} (body : Handler A) (handler : Thrown → Handler A) : Handler A :=
  tryCatchFinally body handler (mret ()).

Definition modifyState (f : State → State) : Handler unit := λ w,
  (Normal (), {| state := f (state w); trace := trace w |}).

Definition getState : Handler State := λ w, (Normal (state w), w).

Definition emit (ev : Event) : Handler unit := λ w,
  (Normal (), {| state := state w; trace := trace w ++ [ev] |}).

(** [await] of a collaborator call. *)
Definition await {A} (ev : Event) (r : Settled A) : Handler A := λ w,
  (match r with Fulfilled a => Normal a | Rejected e => Abrupt e end,
   {| state := state w; trace := trace w ++ [ev] |}).

(** The state setters: each takes an updater, as [setX(prev => ...)] does;
    [setX(v)] is the constant updater. *)
Definition setInstallations (f : list ClaudeInstallation → list ClaudeInstallation) : Handler unit :=
  modifyState (λ s, {| installations := f (installations s); loading := loading s;
    error := error s; selectedInstallation := selectedInstallation s;
    manualPath := manualPath s; isValidatingManualPath := isValidatingManualPath s |}).
Definition setLoading (b : bool) : Handler unit :=
  modifyState (λ s, {| installations := installations s; loading := b;
    error := error s; selectedInstallation := selectedInstallation s;
    manualPath := manualPath s; isValidatingManualPath := isValidatingManualPath s |}).
Definition setError (e : option jsstring) : Handler unit :=
  modifyState (λ s, {| installations := installations s; loading := loading s;
    error := e; selectedInstallation := selectedInstallation s;
    manualPath := manualPath s; isValidatingManualPath := isValidatingManualPath s |}).
Definition setSelectedInstallation (i : option ClaudeInstallation) : Handler unit :=
  modifyState (λ s, {| installations := installations s; loading := loading s;
    error := error s; selectedInstallation := i;
    manualPath := manualPath s; isValidatingManualPath := isValidatingManualPath s |}).
Definition setManualPath (p : jsstring) : Handler unit :=
  modifyState (λ s, {| installations := installations s; loading := loading s;
    error := error s; selectedInstallation := selectedInstallation s;
    manualPath := p; isValidatingManualPath := isValidatingManualPath s |}).
Definition setIsValidatingManualPath (b : bool) : Handler unit :=
  modifyState (λ s, {| installations := installations s; loading := loading s;
    error := error s; selectedInstallation := selectedInstallation s;
    manualPath := manualPath s; isValidatingManualPath := b |}).

(** The caller's callback and the console. *)
Definition onSelect (installation : ClaudeInstallation) : Handler unit :=
  emit (OnSelect installation).
Definition consoleError (label : jsstring) (e : Thrown) : Handler unit :=
  emit (ConsoleError label e).

(** [l.find(i => i.path === p)]: the first element with that path. *)
Definition findByPath (p : jsstring) (l : list ClaudeInstallation) : option ClaudeInstallation :=
  snd <$> list_find (λ i, path i = p) l.

(** A prop of type [string | null | undefined] used as a condition: the
    string when it is truthy. *)
Definition truthyPath (p : option jsstring) : option jsstring :=
  match p with
  | Some s => if truthy s then Some s else None
  | None => None
  end.

(** The entry built for a hand-given path (lines 93-97 and 129-133). *)
Definition manualInstallationFor (p : jsstring) : ClaudeInstallation :=
  {| path := p; version := None; source := js "manual" |}.

(** ** The handlers *)

Section Component.
Variable api : Api.
Variable props : Props.

(** Lines 78-113. *)
Definition loadInstallations : Handler unit :=
  tryCatchFinally
    (setLoading true ;;
     setError None ;;
     foundInstallations ← await CallListClaudeInstallations (listClaudeInstallations api);
     setInstallations (λ _, foundInstallations) ;;
     match truthyPath (selectedPath props) with
     | Some selectedPath =>
         match findByPath selectedPath foundInstallations with
         | Some found => setSelectedInstallation (Some found)
         | None =>
             let manualInstallation := manualInstallationFor selectedPath in
             setInstallations (λ prev, manualInstallation :: prev) ;;
             setSelectedInstallation (Some manualInstallation)
         end
     | None =>
         match foundInstallations with
         | first :: _ =>
             setSelectedInstallation (Some first) ;;
             onSelect first
         | [] => mret ()
         end
     end)
    (λ err,
     consoleError (js "Failed to load Claude installations:") err ;;
     setError (Some (errorMessage err (js "Failed to load Claude installations"))))
    (setLoading false).

(** Lines 68-76: the effect that follows [selectedPath] and
    [installations]. *)
Definition selectedPathEffect : Handler unit :=
  s ← getState;
  match truthyPath (selectedPath props), installations s with
  | Some selectedPath, _ :: _ =>
      match findByPath selectedPath (installations s) with
      | Some found => setSelectedInstallation (Some found)
      | None => mret ()
      end
  | _, _ => mret ()
  end.

(** Lines 115-118. *)
Definition handleSelect (installation : ClaudeInstallation) : Handler unit :=
  setSelectedInstallation (Some installation) ;;
  onSelect installation.

(** Lines 120-150. *)
Definition addManualInstallation (path_ : jsstring) : Handler unit :=
  if truthy (trim path_) then
    setIsValidatingManualPath true ;;
    tryCatchFinally
      (await (CallSetClaudeBinaryPath (trim path_)) (setClaudeBinaryPath api (trim path_)) ;;
       let manualInstallation := manualInstallationFor (trim path_) in
       setInstallations (λ prev,
         let filtered := filter (λ inst, path inst ≠ trim path_) prev in
         manualInstallation :: filtered) ;;
       setSelectedInstallation (Some manualInstallation) ;;
       onSelect manualInstallation ;;
       setManualPath [])
      (λ error,
       consoleError (js "Failed to validate manual path:") error ;;
       setError (Some (errorMessage error (js "Invalid Claude binary path"))))
      (setIsValidatingManualPath false)
  else mret ().

(** Lines 152-173. *)
Definition handleBrowseFile : Handler unit :=
  tryCatch
    (if openIsFunction api then
       selected ← await CallOpen (open api);
       match selected with
       | Some s => if truthy s then addManualInstallation s else mret ()
       | None => mret ()
       end
     else setError (Some (js "File browser is only available in the desktop app")))
    (λ error,
     consoleError (js "Failed to select file:") error ;;
     setError (Some (js "Failed to open file browser. Please use manual path input instead."))).

(** Lines 175-177. *)
Definition handleManualPathSubmit : Handler unit :=
  s ← getState;
  addManualInstallation (manualPath s).

(** Lines 217-222: the radio group reports the chosen path. *)
Definition onValueChange (value : jsstring) : Handler unit :=
  s ← getState;
  match findByPath value (installations s) with
  | Some installation => handleSelect installation
  | None => mret ()
  end.

End Component.

(** Lines 185-197. *)
Definition getSourceLabel (source : jsstring) : jsstring :=
  if bool_decide (source = js "which") then js "System PATH"
  else if bool_decide (source = js "homebrew") then js "Homebrew"
  else if bool_decide (source = js "system") then js "System"
  else if startsWith (js "nvm") source then replace (js "nvm ") (js "NVM ") source
  else if bool_decide (source = js "local-bin") then js "Local bin"
  else if bool_decide (source = js "claude-local") then js "Claude local"
  else if bool_decide (source = js "npm-global") then js "NPM global"
  else if bool_decide (source = js "yarn") || bool_decide (source = js "yarn-global") then js "Yarn"
  else if bool_decide (source = js "bun") then js "Bun"
  else if bool_decide (source = js "manual") then js "Manual Selection"
  else source.

(** The completion of a handler run and the world it leaves. *)
Definition completion {A} (h : Handler A) (w : World) : Completion A := (h w).1.
Definition after {A} (h : Handler A) (w : World) : World := (h w).2.

(** The part of a trace that calls the validator. *)
Definition validatorCalls (t : list Event) : list jsstring :=
  omap (λ ev, match ev with CallSetClaudeBinaryPath p => Some p | _ => None end) t.

(** The installations passed to [onSelect]. *)
Definition notified (t : list Event) : list ClaudeInstallation :=
  omap (λ ev, match ev with OnSelect i => Some i | _ => None end) t.

(** No two entries share a [path] string. *)
Definition uniquePaths (l : list ClaudeInstallation) : Prop := NoDup (path <$> l).

(** ** What can happen to a mounted component *)

(** The mount effect, the [selectedPath] effect, the user's gestures, and a
    direct call of [addManualInstallation] with a given string. *)
Inductive Action : Type :=
  | Mount
  | SelectedPathEffect
  | ClickCard (installation : ClaudeInstallation)
  | ChangeValue (value : jsstring)
  | TypeManualPath (value : jsstring)
  | SubmitManualPath
  | SubmitPath (path_ : jsstring)
  | BrowseFile
  | DismissError.

Definition perform (api : Api) (props : Props) (a : Action) : Handler unit :=
  match a with
  | Mount => loadInstallations api props
  | SelectedPathEffect => selectedPathEffect props
  | ClickCard installation => handleSelect installation
  | ChangeValue value => onValueChange value
  | TypeManualPath value => setManualPath value
  | SubmitManualPath => handleManualPathSubmit api
  | SubmitPath path_ => addManualInstallation api path_
  | BrowseFile => handleBrowseFile api
  | DismissError => setError None
  end.

(** A sequence of actions, one after the other. *)
Fixpoint performAll (api : Api) (props : Props) (acts : list Action) : Handler unit :=
  match acts with
  | [] => mret ()
  | a :: acts' => perform api props a ;; performAll api props acts'
  end.

(** ** Source tags *)

(** The tags [getSourceLabel] compares with (lines 186-195), in the order of
    its branches; the [nvm] prefix test stands apart. *)
Definition recognisedTags : list jsstring :=
  js <$> ["which"; "homebrew"; "system"; "local-bin"; "claude-local"; "npm-global";
          "yarn"; "yarn-global"; "bun"; "manual"]%string.

(** Following the specification (section 3), for comparison with
    [recognisedTags]: the origin tags its data model enumerates; the
    parameterised version-manager tag stands apart. *)
Definition specSourceTags : list jsstring :=
  js <$> ["system-path"; "homebrew"; "system"; "local-bin"; "ecosystem-local";
          "npm-global"; "yarn"; "yarn-global"; "bun"; "manual"]%string.

(** ** The discovery backend *)

Module Discovery.

(** Modelled from the spec: the enumerators, the validator and the ranker
    behind [api.listClaudeInstallations] are not part of the component's
    source.  This follows sections 3, 4.3 and 5 of the specification: the
    origin of a candidate is a closed variant, the ranking is a fixed total
    order over origins, and the ranker runs on the collected results,
    whatever order they arrived in. *)
Inductive Source : Type :=
  | SystemPath
  | Homebrew
  | System
  | VersionManager (recency : nat)
  | LocalBin
  | EcosystemLocal
  | NpmGlobal
  | Yarn
  | YarnGlobal
  | Bun.

(** Modelled from the spec: the priority of section 4.3, highest first.  The
    slot of a version-manager entry counts from the most recently installed
    runtime version; the yarn family is one class, in the order the data
    model lists its two tags. *)
Definition priority (s : Source) : nat * nat :=
  match s with
  | SystemPath => (0, 0)
  | Homebrew => (1, 0)
  | System => (2, 0)
  | VersionManager recency => (3, recency)
  | LocalBin => (4, 0)
  | EcosystemLocal => (5, 0)
  | NpmGlobal => (6, 0)
  | Yarn => (7, 0)
  | YarnGlobal => (7, 1)
  | Bun => (8, 0)
  end%nat.

(** Modelled from the spec: a validated candidate, as a validator task hands
    it to the fan-in point: the enumerator it came from, its position in that
    enumerator's output (the discovery order), and what validation found. *)
Record Candidate : Type := {
  origin : Source;
  position : nat;
  candidatePath : jsstring;
  candidateVersion : option jsstring;
}.

Definition rankKey (c : Candidate) : nat * nat * nat :=
  (priority (origin c), position c).

(** Source priority first, discovery order next. *)
Definition keyLe (a b : nat * nat * nat) : Prop :=
  (a.1.1 < b.1.1 ∨
   (a.1.1 = b.1.1 ∧ (a.1.2 < b.1.2 ∨ (a.1.2 = b.1.2 ∧ a.2 ≤ b.2))))%nat.

Definition precedes (a b : Candidate) : Prop := keyLe (rankKey a) (rankKey b).

#[global] Instance precedes_dec : RelDecision precedes.
Proof. intros a b. unfold precedes, keyLe. apply _. Defined.

(** Modelled from the spec: of two candidates with one canonical path the
    higher-ranked stays.  [realpath] is the symlink resolution of the host. *)
Fixpoint dedupe (realpath : jsstring → jsstring) (seen : list jsstring)
    (cs : list Candidate) : list Candidate :=
  match cs with
  | [] => []
  | c :: cs' =>
      if bool_decide (realpath (candidatePath c) ∈ seen) then dedupe realpath seen cs'
      else c :: dedupe realpath (realpath (candidatePath c) :: seen) cs'
  end.

Definition toInstallation (tagOf : Source → jsstring) (c : Candidate) : ClaudeInstallation :=
  {| path := candidatePath c; version := candidateVersion c; source := tagOf (origin c) |}.

(** Modelled from the spec: the fan-in point.  [arrived] lists the validated
    candidates in the order their tasks completed. *)
Definition discover (realpath : jsstring → jsstring) (tagOf : Source → jsstring)
    (arrived : list Candidate) : list ClaudeInstallation :=
  toInstallation tagOf <$> dedupe realpath [] (merge_sort precedes arrived).

End Discovery.

(** ** Concrete hosts used in the examples *)

Module Examples.

Definition usrBinClaude : ClaudeInstallation :=
  {| path := js "/usr/bin/claude"; version := Some (js "1.2.0"); source := js "which" |}.

Definition homebrewClaude : ClaudeInstallation :=
  {| path := js "/opt/homebrew/bin/claude"; version := Some (js "1.2.0");
     source := js "homebrew" |}.

Definition usrLocalClaude : ClaudeInstallation :=
  {| path := js "/usr/local/bin/claude"; version := None; source := js "system" |}.

(** A backend that accepts every path. *)
Definition acceptingApi (found : Settled (list ClaudeInstallation)) : Api :=
  {| listClaudeInstallations := found;
     setClaudeBinaryPath := λ _, Fulfilled ();
     openIsFunction := true;
     open := Fulfilled None |}.

(** A backend that rejects every path. *)
Definition rejectingApi (found : Settled (list ClaudeInstallation)) : Api :=
  {| listClaudeInstallations := found;
     setClaudeBinaryPath := λ _, Rejected (ThrownValue (js "NotExecutable"));
     openIsFunction := true;
     open := Fulfilled None |}.

Definition noProps : Props := {| selectedPath := None |}.

Definition persisted (p : string) : Props := {| selectedPath := Some (js p) |}.

(** A world whose list holds the given entries. *)
Definition worldWith (l : list ClaudeInstallation) (sel : option ClaudeInstallation) : World :=
  {| state := {| installations := l; loading := false; error := None;
                 selectedInstallation := sel; manualPath := [];
                 isValidatingManualPath := false |};
     trace := [] |}.

(** A host on which [/usr/local/bin/claude] is a symbolic link to
    [/opt/claude/bin/claude]. *)
Definition linkedRealpath (p : jsstring) : jsstring :=
  if bool_decide (p = js "/usr/local/bin/claude") then js "/opt/claude/bin/claude" else p.

Definition pathCandidate : Discovery.Candidate :=
  {| Discovery.origin := Discovery.SystemPath; Discovery.position := 0%nat;
     Discovery.candidatePath := js "/usr/bin/tool";
     Discovery.candidateVersion := Some (js "1.2.0") |}.

Definition homebrewCandidate : Discovery.Candidate :=
  {| Discovery.origin := Discovery.Homebrew; Discovery.position := 0%nat;
     Discovery.candidatePath := js "/opt/homebrew/bin/tool";
     Discovery.candidateVersion := Some (js "1.2.0") |}.

Definition tagOf (s : Discovery.Source) : jsstring :=
  match s with
  | Discovery.SystemPath => js "which"
  | Discovery.Homebrew => js "homebrew"
  | Discovery.System => js "system"
  | Discovery.VersionManager _ => js "nvm"
  | Discovery.LocalBin => js "local-bin"
  | Discovery.EcosystemLocal => js "claude-local"
  | Discovery.NpmGlobal => js "npm-global"
  | Discovery.Yarn => js "yarn"
  | Discovery.YarnGlobal => js "yarn-global"
  | Discovery.Bun => js "bun"
  end.

End Examples.

(** ** The rest of the component *)

(** [s.includes(p)] *)
Fixpoint includes (p s : jsstring) : bool :=
  startsWith p s || match s with
                    | _ :: s' => includes p s'
                    | [] => false
                    end.

(** The three icons of [lucide-react] that [getSourceIcon] returns. *)
Inductive Icon : Type :=
  | Package
  | Plus
  | Terminal.

(** Lines 179-183. *)
Definition getSourceIcon (source : jsstring) : Icon :=
  if includes (js "nvm") source then Package
  else if bool_decide (source = js "manual") then Plus
  else Terminal.

(** Lines 287-292: the key handler of the path input.  [preventDefault] acts
    on the browser event only and is left out. *)
Definition onKeyDown (api : Api) (key : jsstring) (shiftKey : bool) : Handler unit :=
  s ← getState;
  if bool_decide (key = js "Enter") && negb shiftKey && truthy (trim (manualPath s))
  then handleManualPathSubmit api
  else mret ().

(** One card of the radio group, lines 225-266: its React key, whether it
    has the [border-primary] class, its icon and label, the text of the
    version badge and whether the [Current] badge is there. *)
Record Card : Type := {
  cardKey : jsstring;
  cardHighlighted : bool;
  cardIcon : Icon;
  cardLabel : jsstring;
  cardVersionBadge : option jsstring;
  cardCurrentBadge : bool;
}.

Definition renderCard (props : Props) (s : State) (installation : ClaudeInstallation) : Card :=
  {| cardKey := path installation;
     cardHighlighted :=
       bool_decide (path <$> selectedInstallation s = Some (path installation));
     cardIcon := getSourceIcon (source installation);
     cardLabel := getSourceLabel (source installation);
     cardVersionBadge :=
       match version installation with
       | Some v => if truthy v then Some (js "v" ++ v) else None
       | None => None
       end;
     cardCurrentBadge := bool_decide (selectedPath props = Some (path installation)) |}.

(** Lines 199-205 and 210-270: while loading only the spinner is rendered;
    after that one card per entry, in list order. *)
Definition renderCards (props : Props) (s : State) : list Card :=
  if loading s then [] else renderCard props s <$> installations s.

(** Line 298: the [disabled] attribute of the "Use Path" button. *)
Definition usePathDisabled (s : State) : bool :=
  negb (truthy (trim (manualPath s))) || isValidatingManualPath s.

(** Lines 322-334: the text of the error card, when there is one. *)
Definition renderError (s : State) : option jsstring :=
  if loading s then None
  else match error s with
       | Some e => if truthy e then Some e else None
       | None => None
       end.

(** The actions a rendered component can be asked to perform: the mount
    effect has run already, and a card that is clicked is a card of the
    list. *)
Definition offered (w : World) (a : Action) : Prop :=
  match a with
  | Mount => False
  | ClickCard installation => installation ∈ installations (state w)
  | _ => True
  end.

(** The worlds of a component mounted with [mountApi] and [mountProps]: the
    world the load on mount leaves, and any world reached from there by
    offered actions, whatever the collaborators answer and whatever the props
    are at each of them. *)
Inductive reachable (mountApi : Api) (mountProps : Props) : World → Prop :=
  | reachable_mounted :
      reachable mountApi mountProps (after (loadInstallations mountApi mountProps) initialWorld)
  | reachable_step (api : Api) (props : Props) (a : Action) (w : World) :
      reachable mountApi mountProps w →
      offered w a →
      reachable mountApi mountProps (after (perform api props a) w).

(** ** The release workflows *)

Module Updater.

(** The part of a release payload that the script of [updater.yml] reads
    (lines 20-54).  [body] is [None] for [null]. *)
Record Asset : Type := {
  name : jsstring;
  browser_download_url : jsstring;
}.

Record Release : Type := {
  tag_name : jsstring;
  body : option jsstring;
  published_at : jsstring;
  assets : list Asset;
}.

Record PlatformInfo : Type := {
  signature : jsstring;
  url : jsstring;
}.

(** The [updaterJson] object.  [platforms] is an object filled key by key;
    its entries are listed in insertion order, the order [JSON.stringify]
    writes them in. *)
Record UpdaterJson : Type := {
  version : jsstring;
  notes : jsstring;
  pub_date : jsstring;
  platforms : list (jsstring * PlatformInfo);
}.

(** [assets.find(asset => asset.name.includes(pattern))] *)
Definition findAsset (pattern : jsstring) (l : list Asset) : option Asset :=
  snd <$> list_find (λ asset, includes pattern (name asset) = true) l.

(** Lines 25-30: the [platforms] table of the script, key and pattern. *)
Definition platformPatterns : list (jsstring * jsstring) :=
  [(js "darwin-x86_64", js "macos-intel");
   (js "darwin-aarch64", js "macos-apple-silicon");
   (js "linux-x86_64", js "linux-x86_64");
   (js "windows-x86_64", js "windows-x86_64")].

(** Lines 41-48: one entry for each platform whose asset was found. *)
Definition platformEntries (l : list Asset) : list (jsstring * PlatformInfo) :=
  omap (λ '(platform, pattern),
          match findAsset pattern l with
          | Some asset =>
              Some (platform, {| signature := []; url := browser_download_url asset |})
          | None => None
          end) platformPatterns.

(** Lines 33-38 with 41-48: the object the script writes to
    [latest.json] and returns. *)
Definition updaterJson (release : Release) : UpdaterJson :=
  {| version := tag_name release;
     notes := match body release with
              | Some b => if truthy b then b else js "Release " ++ tag_name release
              | None => js "Release " ++ tag_name release
              end;
     pub_date := published_at release;
     platforms := platformEntries (assets release) |}.

(** [release.yml], lines 118-128: the [artifact-name] of each matrix entry;
    lines 347-349: the name an artifact is uploaded under, its [artifact-name]
    followed by the extension of the built file. *)
Definition artifactNames : list jsstring :=
  js <$> ["claudia-linux-x86_64"; "claudia-windows-x86_64"; "claudia-macos-universal"]%string.

Definition finalName (baseName ext : jsstring) : jsstring := baseName ++ ext.

(** [release.yml], line 101: the [prerelease] flag of the created release. *)
Definition prerelease (version : jsstring) : bool :=
  includes (js "beta") version || includes (js "alpha") version || includes (js "rc") version.

End Updater.

(** ** Facts about strings *)

Lemma trimStart_split (s : jsstring) :
  ∃ pre, s = pre ++ trimStart s ∧ Forall (λ c, isWhiteSpace c = true) pre.
Proof.
  induction s as [|c s [pre [Hs Hpre]]]; simpl.
  - by exists [].
  - destruct (isWhiteSpace c) eqn:Hc.
    + exists (c :: pre). split; [by rewrite Hs at 1 | by constructor].
    + by exists [].
Qed.

Lemma trimStart_head (s : jsstring) (c : N) :
  head (trimStart s) = Some c → isWhiteSpace c = false.
Proof.
  induction s as [|d s IH]; simpl; [done|].
  destruct (isWhiteSpace d) eqn:Hd; [done|].
  simpl. by intros [= ->].
Qed.

Lemma trimStart_nil_iff (s : jsstring) :
  trimStart s = [] ↔ Forall (λ c, isWhiteSpace c = true) s.
Proof.
  induction s as [|c s IH]; simpl; [done|].
  destruct (isWhiteSpace c) eqn:Hc.
  - rewrite IH. split; [by constructor | by inversion 1].
  - split; [done|]. inversion 1; congruence.
Qed.

Lemma trimStart_last (s : jsstring) : last (trimStart s) = last s ∨ trimStart s = [].
Proof.
  induction s as [|c s IH]; simpl; [by left|].
  destruct (isWhiteSpace c); [|by left].
  destruct IH as [IH|IH]; [|by right].
  destruct s as [|d s]; [by right|]. by left.
Qed.

(** [trim] removes exactly the surrounding white space: what is cut on
    each side is white space, and what is left neither starts nor ends
    with it. *)
Lemma trim_spec (s : jsstring) :
  ∃ pre post,
    s = pre ++ trim s ++ post ∧
    Forall (λ c, isWhiteSpace c = true) pre ∧
    Forall (λ c, isWhiteSpace c = true) post ∧
    (∀ c, head (trim s) = Some c → isWhiteSpace c = false) ∧
    (∀ c, last (trim s) = Some c → isWhiteSpace c = false).
Proof.
  destruct (trimStart_split s) as [pre [Hs Hpre]].
  destruct (trimStart_split (reverse (trimStart s))) as [post [Hr Hpost]].
  exists pre, (reverse post). split_and!.
  - rewrite Hs at 1. f_equal. unfold trim, trimEnd.
    rewrite <- reverse_app, <- Hr. by rewrite reverse_involutive.
  - done.
  - by apply Forall_reverse.
  - intros c Hc. unfold trim, trimEnd in Hc.
    rewrite head_reverse in Hc.
    destruct (trimStart_last (reverse (trimStart s))) as [Hl|Hl].
    + rewrite Hl, last_reverse in Hc. by apply trimStart_head in Hc.
    + by rewrite Hl in Hc.
  - intros c Hc. unfold trim, trimEnd in Hc.
    rewrite last_reverse in Hc. by apply trimStart_head in Hc.
Qed.

(** A string trims to the empty string exactly when it is empty or all
    white space. *)
Lemma trim_nil_iff (s : jsstring) :
  trim s = [] ↔ Forall (λ c, isWhiteSpace c = true) s.
Proof.
  split.
  - intros Ht. destruct (trim_spec s) as (pre & post & Hs & Hpre & Hpost & _).
    rewrite Hs, Ht. simpl. by apply Forall_app.
  - intros Hs. unfold trim, trimEnd.
    apply trimStart_nil_iff in Hs. by rewrite Hs.
Qed.

Lemma truthy_true_iff (s : jsstring) : truthy s = true ↔ s ≠ [].
Proof. by destruct s. Qed.

Lemma truthy_false_iff (s : jsstring) : truthy s = false ↔ s = [].
Proof. by destruct s. Qed.

(** ** Facts about [find] and [filter] on the candidate list *)

Lemma findByPath_Some (p : jsstring) (l : list ClaudeInstallation) (i : ClaudeInstallation) :
  findByPath p l = Some i →
  ∃ k, l !! k = Some i ∧ path i = p ∧ ∀ j y, l !! j = Some y → (j < k)%nat → path y ≠ p.
Proof.
  unfold findByPath. intros H.
  apply fmap_Some in H as [[k x] [Hf ->]]. simpl.
  apply list_find_Some in Hf as (Hk & Hp & Hfirst). eauto.
Qed.

Lemma findByPath_None (p : jsstring) (l : list ClaudeInstallation) :
  findByPath p l = None ↔ ∀ i, i ∈ l → path i ≠ p.
Proof.
  unfold findByPath. rewrite fmap_None, list_find_None, Forall_forall. done.
Qed.

Lemma findByPath_is_Some (p : jsstring) (l : list ClaudeInstallation) :
  (∃ i, i ∈ l ∧ path i = p) → is_Some (findByPath p l).
Proof.
  intros (i & Hi & Hp). destruct (findByPath p l) eqn:Hf; [by eexists|].
  rewrite findByPath_None in Hf. by destruct (Hf i Hi).
Qed.

Lemma filter_other_paths_unique (p : jsstring) (l : list ClaudeInstallation) :
  uniquePaths l →
  uniquePaths (manualInstallationFor p :: filter (λ inst, path inst ≠ p) l).
Proof.
  unfold uniquePaths. intros Hl. rewrite fmap_cons. constructor.
  - simpl. intros Hin. apply list_elem_of_fmap in Hin as (i & Hp & Hi).
    apply list_elem_of_filter in Hi as [Hne _]. congruence.
  - induction l as [|x l IH]; [constructor|].
    rewrite fmap_cons in Hl. apply NoDup_cons in Hl as [Hx Hl].
    rewrite filter_cons. case_decide; [|by apply IH].
    rewrite fmap_cons. constructor; [|by apply IH].
    intros Hin. apply Hx. apply list_elem_of_fmap in Hin as (i & Hp & Hi).
    apply list_elem_of_filter in Hi as [_ Hi].
    apply list_elem_of_fmap. eauto.
Qed.

Lemma filter_same_path_prepended (p : jsstring) (l : list ClaudeInstallation) :
  filter (λ inst, path inst = p)
    (manualInstallationFor p :: filter (λ inst, path inst ≠ p) l)
  = [manualInstallationFor p].
Proof.
  rewrite filter_cons. simpl. case_decide; [|done]. f_equal.
  induction l as [|x l IH]; [done|].
  rewrite (filter_cons (λ inst, path inst ≠ p)). case_decide; [|done].
  rewrite filter_cons. by case_decide.
Qed.

(** ** Running the handlers *)

Ltac unfold_handlers :=
  unfold completion, after, loadInstallations, selectedPathEffect, handleSelect,
    addManualInstallation, handleBrowseFile, handleManualPathSubmit, onValueChange,
    tryCatch, tryCatchFinally, setInstallations, setLoading, setError,
    setSelectedInstallation, setManualPath, setIsValidatingManualPath,
    onSelect, consoleError, modifyState, getState, emit, await,
    mbind, mret, Handler_bind, Handler_ret.

Ltac run_handler := unfold_handlers; simpl; rewrite <- ?app_assoc; simpl.

Section Runs.
Variable api : Api.
Variable props : Props.

(** Discovery rejected: only [loading] and [error] change. *)
Lemma loadInstallations_rejected (w : World) (err : Thrown) :
  listClaudeInstallations api = Rejected err →
  loadInstallations api props w =
    (Normal (),
     {| state := {| installations := installations (state w);
                    loading := false;
                    error := Some (errorMessage err (js "Failed to load Claude installations"));
                    selectedInstallation := selectedInstallation (state w);
                    manualPath := manualPath (state w);
                    isValidatingManualPath := isValidatingManualPath (state w) |};
        trace := trace w ++ [CallListClaudeInstallations;
                   ConsoleError (js "Failed to load Claude installations:") err] |}).
Proof. intros H. run_handler. rewrite H. run_handler. done. Qed.

(** Discovery fulfilled, a truthy [selectedPath] that is found. *)
Lemma loadInstallations_found (w : World) (l : list ClaudeInstallation)
    (p : jsstring) (found : ClaudeInstallation) :
  listClaudeInstallations api = Fulfilled l →
  truthyPath (selectedPath props) = Some p →
  findByPath p l = Some found →
  loadInstallations api props w =
    (Normal (),
     {| state := {| installations := l;
                    loading := false;
                    error := None;
                    selectedInstallation := Some found;
                    manualPath := manualPath (state w);
                    isValidatingManualPath := isValidatingManualPath (state w) |};
        trace := trace w ++ [CallListClaudeInstallations] |}).
Proof. intros H Hp Hf. run_handler. rewrite H, Hp, Hf. done. Qed.

(** Discovery fulfilled, a truthy [selectedPath] that is not found. *)
Lemma loadInstallations_synthesized (w : World) (l : list ClaudeInstallation) (p : jsstring) :
  listClaudeInstallations api = Fulfilled l →
  truthyPath (selectedPath props) = Some p →
  findByPath p l = None →
  loadInstallations api props w =
    (Normal (),
     {| state := {| installations := manualInstallationFor p :: l;
                    loading := false;
                    error := None;
                    selectedInstallation := Some (manualInstallationFor p);
                    manualPath := manualPath (state w);
                    isValidatingManualPath := isValidatingManualPath (state w) |};
        trace := trace w ++ [CallListClaudeInstallations] |}).
Proof. intros H Hp Hf. run_handler. rewrite H, Hp, Hf. done. Qed.

(** Discovery fulfilled with a first element, no truthy [selectedPath]. *)
Lemma loadInstallations_auto (w : World) (first : ClaudeInstallation)
    (rest : list ClaudeInstallation) :
  listClaudeInstallations api = Fulfilled (first :: rest) →
  truthyPath (selectedPath props) = None →
  loadInstallations api props w =
    (Normal (),
     {| state := {| installations := first :: rest;
                    loading := false;
                    error := None;
                    selectedInstallation := Some first;
                    manualPath := manualPath (state w);
                    isValidatingManualPath := isValidatingManualPath (state w) |};
        trace := trace w ++ [CallListClaudeInstallations; OnSelect first] |}).
Proof. intros H Hp. run_handler. rewrite H, Hp. run_handler. done. Qed.

(** Discovery fulfilled with nothing, no truthy [selectedPath]. *)
Lemma loadInstallations_none (w : World) :
  listClaudeInstallations api = Fulfilled [] →
  truthyPath (selectedPath props) = None →
  loadInstallations api props w =
    (Normal (),
     {| state := {| installations := [];
                    loading := false;
                    error := None;
                    selectedInstallation := selectedInstallation (state w);
                    manualPath := manualPath (state w);
                    isValidatingManualPath := isValidatingManualPath (state w) |};
        trace := trace w ++ [CallListClaudeInstallations] |}).
Proof. intros H Hp. run_handler. rewrite H, Hp. done. Qed.

(** A blank submission returns before anything happens. *)
Lemma addManualInstallation_blank (w : World) (p : jsstring) :
  trim p = [] → addManualInstallation api p w = (Normal (), w).
Proof. intros H. unfold addManualInstallation. by rewrite H. Qed.

(** The validator accepts the trimmed path. *)
Lemma addManualInstallation_fulfilled (w : World) (p : jsstring) :
  trim p ≠ [] →
  setClaudeBinaryPath api (trim p) = Fulfilled () →
  addManualInstallation api p w =
    (Normal (),
     {| state := {| installations :=
                      manualInstallationFor (trim p) ::
                        filter (λ inst, path inst ≠ trim p) (installations (state w));
                    loading := loading (state w);
                    error := error (state w);
                    selectedInstallation := Some (manualInstallationFor (trim p));
                    manualPath := [];
                    isValidatingManualPath := false |};
        trace := trace w ++ [CallSetClaudeBinaryPath (trim p);
                   OnSelect (manualInstallationFor (trim p))] |}).
Proof.
  intros Hp H. apply truthy_true_iff in Hp.
  unfold addManualInstallation. rewrite Hp. run_handler. rewrite H. run_handler. done.
Qed.

(** The validator rejects the trimmed path. *)
Lemma addManualInstallation_rejected (w : World) (p : jsstring) (err : Thrown) :
  trim p ≠ [] →
  setClaudeBinaryPath api (trim p) = Rejected err →
  addManualInstallation api p w =
    (Normal (),
     {| state := {| installations := installations (state w);
                    loading := loading (state w);
                    error := Some (errorMessage err (js "Invalid Claude binary path"));
                    selectedInstallation := selectedInstallation (state w);
                    manualPath := manualPath (state w);
                    isValidatingManualPath := false |};
        trace := trace w ++ [CallSetClaudeBinaryPath (trim p);
                   ConsoleError (js "Failed to validate manual path:") err] |}).
Proof.
  intros Hp H. apply truthy_true_iff in Hp.
  unfold addManualInstallation. rewrite Hp. run_handler. rewrite H. run_handler. done.
Qed.

(** No handler lets an exception out: every rejection of a collaborator is
    caught by the surrounding [try]. *)
Lemma loadInstallations_completes (w : World) :
  completion (loadInstallations api props) w = Normal ().
Proof.
  run_handler. destruct (listClaudeInstallations api) as [l|e]; simpl; [|done].
  destruct (truthyPath (selectedPath props)) as [p|]; simpl.
  - by destruct (findByPath p l).
  - by destruct l.
Qed.

Lemma addManualInstallation_completes (w : World) (p : jsstring) :
  completion (addManualInstallation api p) w = Normal ().
Proof.
  unfold completion. destruct (decide (trim p = [])) as [Hp|Hp].
  - by rewrite addManualInstallation_blank.
  - destruct (setClaudeBinaryPath api (trim p)) as [[]|e] eqn:H.
    + by rewrite addManualInstallation_fulfilled.
    + by rewrite (addManualInstallation_rejected _ _ e).
Qed.

End Runs.

Lemma validatorCalls_app (t1 t2 : list Event) :
  validatorCalls (t1 ++ t2) = validatorCalls t1 ++ validatorCalls t2.
Proof. apply omap_app. Qed.

Lemma notified_app (t1 t2 : list Event) :
  notified (t1 ++ t2) = notified t1 ++ notified t2.
Proof. apply omap_app. Qed.

(** ** Selecting an entry *)

(** C9. [handleSelect installation] always completes; it makes the given
    value the selected installation, leaves the candidate list and every
    other state cell as they were, tells the caller through [onSelect], and
    does not call the validator. *)
Theorem handleSelect_sets_selection (installation : ClaudeInstallation) (w : World) :
  handleSelect installation w =
    (Normal (),
     {| state := {| installations := installations (state w);
                    loading := loading (state w);
                    error := error (state w);
                    selectedInstallation := Some installation;
                    manualPath := manualPath (state w);
                    isValidatingManualPath := isValidatingManualPath (state w) |};
        trace := trace w ++ [OnSelect installation] |})
  ∧ validatorCalls (trace (after (handleSelect installation) w)) = validatorCalls (trace w).
Proof.
  split; [done|].
  unfold_handlers. simpl. rewrite validatorCalls_app. simpl. by rewrite app_nil_r.
Qed.

(** ** Submitting a path by hand *)

(** C10. A submission that is empty or all white space changes nothing at
    all: same world, so no validator call, no error, no notification.  Any
    other submission calls the validator once, on the trimmed string, and when
    the validator accepts, the entry put in front of the list and selected
    has the trimmed string as its path; the trimmed string is the input
    without its surrounding white space. *)
Theorem addManualInstallation_blank_or_trimmed (api : Api) (p : jsstring) (w : World) :
  (Forall (λ c, isWhiteSpace c = true) p →
     addManualInstallation api p w = (Normal (), w)) ∧
  (¬ Forall (λ c, isWhiteSpace c = true) p →
     validatorCalls (trace (after (addManualInstallation api p) w))
       = validatorCalls (trace w) ++ [trim p] ∧
     (setClaudeBinaryPath api (trim p) = Fulfilled () →
        head (installations (state (after (addManualInstallation api p) w)))
          = Some (manualInstallationFor (trim p)) ∧
        selectedInstallation (state (after (addManualInstallation api p) w))
          = Some (manualInstallationFor (trim p)) ∧
        path (manualInstallationFor (trim p)) = trim p) ∧
     (∃ pre post,
        p = pre ++ trim p ++ post ∧
        Forall (λ c, isWhiteSpace c = true) pre ∧
        Forall (λ c, isWhiteSpace c = true) post ∧
        (∀ c, head (trim p) = Some c → isWhiteSpace c = false) ∧
        (∀ c, last (trim p) = Some c → isWhiteSpace c = false))).
Proof.
  split.
  - intros Hp. apply addManualInstallation_blank. by apply trim_nil_iff.
  - intros Hp. rewrite <- trim_nil_iff in Hp. split_and!.
    + unfold after.
      destruct (setClaudeBinaryPath api (trim p)) as [[]|e] eqn:H.
      * rewrite addManualInstallation_fulfilled by done. simpl.
        by rewrite validatorCalls_app.
      * rewrite (addManualInstallation_rejected _ _ _ e) by done. simpl.
        by rewrite validatorCalls_app.
    + intros H. unfold after. by rewrite addManualInstallation_fulfilled.
    + apply trim_spec.
Qed.

Lemma addManualInstallation_blank_or_trimmed_witness :
  addManualInstallation (Examples.acceptingApi (Fulfilled [])) (js "  ") initialWorld
    = (Normal (), initialWorld) ∧
  head (installations (state (after
          (addManualInstallation (Examples.acceptingApi (Fulfilled []))
             (js " /usr/local/bin/claude ")) initialWorld)))
    = Some (manualInstallationFor (js "/usr/local/bin/claude")).
Proof.
  split.
  - apply (addManualInstallation_blank_or_trimmed
             (Examples.acceptingApi (Fulfilled [])) (js "  ") initialWorld).
    vm_compute. repeat constructor.
  - apply (addManualInstallation_blank_or_trimmed
             (Examples.acceptingApi (Fulfilled [])) (js " /usr/local/bin/claude ")
             initialWorld).
    + rewrite <- trim_nil_iff. vm_compute. discriminate.
    + reflexivity.
Defined.

(** C3. When the validator rejects the submitted path, the candidate list
    and the selected installation are what they were before the call, the
    caller is not notified of any selection, and the failure is surfaced: it
    is logged and becomes the [error] shown to the user.  The handler itself
    completes normally. *)
Theorem addManualInstallation_failure_keeps_state
    (api : Api) (p : jsstring) (err : Thrown) (w : World) :
  trim p ≠ [] →
  setClaudeBinaryPath api (trim p) = Rejected err →
  completion (addManualInstallation api p) w = Normal () ∧
  installations (state (after (addManualInstallation api p) w)) = installations (state w) ∧
  selectedInstallation (state (after (addManualInstallation api p) w))
    = selectedInstallation (state w) ∧
  manualPath (state (after (addManualInstallation api p) w)) = manualPath (state w) ∧
  notified (trace (after (addManualInstallation api p) w)) = notified (trace w) ∧
  error (state (after (addManualInstallation api p) w))
    = Some (errorMessage err (js "Invalid Claude binary path")) ∧
  trace (after (addManualInstallation api p) w)
    = trace w ++ [CallSetClaudeBinaryPath (trim p);
                  ConsoleError (js "Failed to validate manual path:") err].
Proof.
  intros Hp H. unfold completion, after.
  rewrite (addManualInstallation_rejected _ _ _ err) by done. simpl.
  split_and!; try done.
  rewrite notified_app. simpl. by rewrite app_nil_r.
Qed.

Lemma addManualInstallation_failure_keeps_state_witness :
  selectedInstallation (state (after
      (addManualInstallation (Examples.rejectingApi (Fulfilled [])) (js "/tmp/not-a-file"))
      (Examples.worldWith [Examples.usrBinClaude] (Some Examples.usrBinClaude))))
    = Some Examples.usrBinClaude.
Proof.
  apply (addManualInstallation_failure_keeps_state
           (Examples.rejectingApi (Fulfilled [])) (js "/tmp/not-a-file")
           (ThrownValue (js "NotExecutable"))
           (Examples.worldWith [Examples.usrBinClaude] (Some Examples.usrBinClaude))).
  - vm_compute. discriminate.
  - reflexivity.
Defined.

(** C1, as the code has it.  When the trimmed submission is not empty and
    the validator accepts it, [addManualInstallation] builds a [manual] entry
    whose path is the trimmed string and whose version is absent, drops every
    entry whose [path] string equals it, puts the new entry in front, selects
    it and passes it to [onSelect]; the list then holds exactly one entry
    with that path string. *)
Theorem addManualInstallation_accepts (api : Api) (p : jsstring) (w : World) :
  trim p ≠ [] →
  setClaudeBinaryPath api (trim p) = Fulfilled () →
  completion (addManualInstallation api p) w = Normal () ∧
  manualInstallationFor (trim p)
    = {| path := trim p; version := None; source := js "manual" |} ∧
  installations (state (after (addManualInstallation api p) w))
    = manualInstallationFor (trim p)
        :: filter (λ inst, path inst ≠ trim p) (installations (state w)) ∧
  selectedInstallation (state (after (addManualInstallation api p) w))
    = Some (manualInstallationFor (trim p)) ∧
  notified (trace (after (addManualInstallation api p) w))
    = notified (trace w) ++ [manualInstallationFor (trim p)] ∧
  filter (λ inst, path inst = trim p)
      (installations (state (after (addManualInstallation api p) w)))
    = [manualInstallationFor (trim p)].
Proof.
  intros Hp H. unfold completion, after.
  rewrite addManualInstallation_fulfilled by done. simpl.
  split_and!; try done.
  - by rewrite notified_app.
  - apply filter_same_path_prepended.
Qed.

Lemma addManualInstallation_accepts_witness :
  installations (state (after
      (addManualInstallation (Examples.acceptingApi (Fulfilled [])) (js "/usr/bin/claude"))
      (Examples.worldWith [Examples.usrBinClaude; Examples.homebrewClaude]
         (Some Examples.homebrewClaude))))
    = [manualInstallationFor (js "/usr/bin/claude"); Examples.homebrewClaude].
Proof.
  pose proof (addManualInstallation_accepts
           (Examples.acceptingApi (Fulfilled [])) (js "/usr/bin/claude")
           (Examples.worldWith [Examples.usrBinClaude; Examples.homebrewClaude]
              (Some Examples.homebrewClaude))) as H.
  destruct H as (_ & _ & H & _).
  - vm_compute. discriminate.
  - reflexivity.
  - rewrite H. reflexivity.
Defined.

(** C1 as stated fails twice.  The entry's path is the trimmed string, not
    the string that was submitted; and entries are matched by their [path]
    string, so on a host where one file has two names the list keeps an entry
    for each. *)
Lemma addManualInstallation_path_as_given_fails :
  (setClaudeBinaryPath (Examples.acceptingApi (Fulfilled [])) (js "/usr/bin/claude ")
     = Fulfilled () ∧
   path <$> head (installations (state (after
       (addManualInstallation (Examples.acceptingApi (Fulfilled [])) (js "/usr/bin/claude "))
       initialWorld)))
     ≠ Some (js "/usr/bin/claude ")) ∧
  (∃ a b,
     installations (state (after
       (addManualInstallation (Examples.acceptingApi (Fulfilled []))
          (js "/opt/claude/bin/claude"))
       (Examples.worldWith [Examples.usrLocalClaude] None))) = [a; b] ∧
     a ≠ b ∧
     Examples.linkedRealpath (path a) = Examples.linkedRealpath (path b)).
Proof.
  split.
  - split; [reflexivity|]. vm_compute. discriminate.
  - eexists _, _. split; [reflexivity|]. split; [discriminate | reflexivity].
Qed.

(** ** Loading the list *)

(** C2. With a truthy [selectedPath] and a fulfilled discovery: when some
    discovered entry has that path, the first such entry of the discovered
    list is the selected one and the list is the discovered list, nothing
    added; when none has it, a [manual] entry for that path with no version
    is put in front of the discovered list and selected. *)
Theorem loadInstallations_persisted_path
    (api : Api) (props : Props) (p : jsstring) (l : list ClaudeInstallation) (w : World) :
  selectedPath props = Some p →
  p ≠ [] →
  listClaudeInstallations api = Fulfilled l →
  ((∃ i, i ∈ l ∧ path i = p) →
     ∃ found k,
       l !! k = Some found ∧ path found = p ∧
       (∀ j y, l !! j = Some y → (j < k)%nat → path y ≠ p) ∧
       selectedInstallation (state (after (loadInstallations api props) w)) = Some found ∧
       installations (state (after (loadInstallations api props) w)) = l) ∧
  ((∀ i, i ∈ l → path i ≠ p) →
     installations (state (after (loadInstallations api props) w))
       = {| path := p; version := None; source := js "manual" |} :: l ∧
     selectedInstallation (state (after (loadInstallations api props) w))
       = Some {| path := p; version := None; source := js "manual" |}).
Proof.
  intros Hsel Hp Hl.
  assert (truthyPath (selectedPath props) = Some p) as Ht.
  { rewrite Hsel. simpl. apply truthy_true_iff in Hp. by rewrite Hp. }
  split.
  - intros Hex. apply findByPath_is_Some in Hex as [found Hf].
    destruct (findByPath_Some _ _ _ Hf) as (k & Hk & Hpath & Hfirst).
    exists found, k. unfold after.
    rewrite (loadInstallations_found _ _ _ l p found) by done. done.
  - intros Hnone. apply findByPath_None in Hnone. unfold after.
    rewrite (loadInstallations_synthesized _ _ _ l p) by done. done.
Qed.

Lemma loadInstallations_persisted_path_witness :
  (∃ found k,
     [Examples.usrBinClaude; Examples.homebrewClaude] !! k = Some found ∧
     path found = js "/opt/homebrew/bin/claude" ∧
     (∀ j y, [Examples.usrBinClaude; Examples.homebrewClaude] !! j = Some y →
        (j < k)%nat → path y ≠ js "/opt/homebrew/bin/claude") ∧
     selectedInstallation (state (after
         (loadInstallations
            (Examples.acceptingApi
               (Fulfilled [Examples.usrBinClaude; Examples.homebrewClaude]))
            (Examples.persisted "/opt/homebrew/bin/claude")) initialWorld))
       = Some found ∧
     installations (state (after
         (loadInstallations
            (Examples.acceptingApi
               (Fulfilled [Examples.usrBinClaude; Examples.homebrewClaude]))
            (Examples.persisted "/opt/homebrew/bin/claude")) initialWorld))
       = [Examples.usrBinClaude; Examples.homebrewClaude]).
Proof.
  apply (loadInstallations_persisted_path
           (Examples.acceptingApi (Fulfilled [Examples.usrBinClaude; Examples.homebrewClaude]))
           (Examples.persisted "/opt/homebrew/bin/claude")
           (js "/opt/homebrew/bin/claude")
           [Examples.usrBinClaude; Examples.homebrewClaude] initialWorld).
  - reflexivity.
  - vm_compute. discriminate.
  - reflexivity.
  - exists Examples.homebrewClaude. split; [|reflexivity].
    apply list_elem_of_further, list_elem_of_here.
Defined.

(** C4. With no truthy [selectedPath] and a discovery that returns at least
    one entry, the first entry becomes the selected installation and
    [onSelect] is called with it, once. *)
Theorem loadInstallations_auto_selects_first
    (api : Api) (props : Props) (first : ClaudeInstallation)
    (rest : list ClaudeInstallation) (w : World) :
  truthyPath (selectedPath props) = None →
  listClaudeInstallations api = Fulfilled (first :: rest) →
  installations (state (after (loadInstallations api props) w)) = first :: rest ∧
  selectedInstallation (state (after (loadInstallations api props) w)) = Some first ∧
  notified (trace (after (loadInstallations api props) w)) = notified (trace w) ++ [first].
Proof.
  intros Hp Hl. unfold after.
  rewrite (loadInstallations_auto _ _ _ first rest) by done. simpl.
  split_and!; try done. by rewrite notified_app.
Qed.

Lemma loadInstallations_auto_selects_first_witness :
  selectedInstallation (state (after
      (loadInstallations
         (Examples.acceptingApi (Fulfilled [Examples.usrBinClaude; Examples.homebrewClaude]))
         Examples.noProps) initialWorld))
    = Some Examples.usrBinClaude ∧
  notified (trace (after
      (loadInstallations
         (Examples.acceptingApi (Fulfilled [Examples.usrBinClaude; Examples.homebrewClaude]))
         Examples.noProps) initialWorld))
    = [Examples.usrBinClaude].
Proof.
  pose proof (loadInstallations_auto_selects_first
           (Examples.acceptingApi (Fulfilled [Examples.usrBinClaude; Examples.homebrewClaude]))
           Examples.noProps Examples.usrBinClaude [Examples.homebrewClaude] initialWorld)
    as H.
  destruct H as (_ & Hsel & Hnote); [reflexivity | reflexivity |].
  split; [exact Hsel | exact Hnote].
Defined.

(** ** Unique paths *)

Section UniquePaths.
Variable api : Api.
Variable props : Props.
Hypothesis discovery_unique :
  ∀ l, listClaudeInstallations api = Fulfilled l → uniquePaths l.

Lemma loadInstallations_uniquePaths (w : World) :
  uniquePaths (installations (state w)) →
  uniquePaths (installations (state (after (loadInstallations api props) w))).
Proof.
  intros Hw. unfold after.
  destruct (listClaudeInstallations api) as [l|e] eqn:Hl.
  - specialize (discovery_unique l eq_refl).
    destruct (truthyPath (selectedPath props)) as [p|] eqn:Hp.
    + destruct (findByPath p l) as [found|] eqn:Hf.
      * by rewrite (loadInstallations_found _ _ _ l p found).
      * rewrite (loadInstallations_synthesized _ _ _ l p) by done. simpl.
        unfold uniquePaths. rewrite fmap_cons. constructor; [|done].
        simpl. intros Hin. apply list_elem_of_fmap in Hin as (i & Hi & Hin).
        rewrite findByPath_None in Hf. by destruct (Hf i Hin).
    + destruct l as [|first rest].
      * rewrite loadInstallations_none by done. constructor.
      * by rewrite (loadInstallations_auto _ _ _ first rest).
  - by rewrite (loadInstallations_rejected _ _ _ e).
Qed.

Lemma addManualInstallation_installations (p : jsstring) (w : World) :
  installations (state (after (addManualInstallation api p) w)) = installations (state w) ∨
  installations (state (after (addManualInstallation api p) w))
    = manualInstallationFor (trim p)
        :: filter (λ inst, path inst ≠ trim p) (installations (state w)).
Proof.
  unfold after. destruct (decide (trim p = [])) as [Hp|Hp].
  - left. by rewrite addManualInstallation_blank.
  - destruct (setClaudeBinaryPath api (trim p)) as [[]|e] eqn:H.
    + right. by rewrite addManualInstallation_fulfilled.
    + left. by rewrite (addManualInstallation_rejected _ _ _ e).
Qed.

Lemma addManualInstallation_uniquePaths (p : jsstring) (w : World) :
  uniquePaths (installations (state w)) →
  uniquePaths (installations (state (after (addManualInstallation api p) w))).
Proof.
  intros Hw. destruct (addManualInstallation_installations p w) as [->| ->]; [done|].
  by apply filter_other_paths_unique.
Qed.

Lemma handleBrowseFile_installations (w : World) :
  installations (state (after (handleBrowseFile api) w)) = installations (state w) ∨
  ∃ p, installations (state (after (handleBrowseFile api) w))
         = manualInstallationFor (trim p)
             :: filter (λ inst, path inst ≠ trim p) (installations (state w)).
Proof.
  unfold after, handleBrowseFile, tryCatch, tryCatchFinally.
  destruct (openIsFunction api); [|by left].
  unfold mbind, Handler_bind, await. simpl.
  destruct (open api) as [[s|]|e]; simpl; [|by left..].
  destruct (truthy s) eqn:Hs; simpl; [|by left].
  pose proof (addManualInstallation_completes api
    {| state := state w; trace := trace w ++ [CallOpen] |} s) as Hc.
  pose proof (addManualInstallation_installations s
    {| state := state w; trace := trace w ++ [CallOpen] |}) as Hi.
  unfold completion, after in Hc, Hi.
  destruct (addManualInstallation api s _) as [c w1].
  simpl in *. subst c. simpl.
  destruct Hi as [Hi|Hi]; [by left | right; by exists s].
Qed.

Lemma perform_uniquePaths (a : Action) (w : World) :
  uniquePaths (installations (state w)) →
  uniquePaths (installations (state (after (perform api props a) w))).
Proof.
  intros Hw. destruct a; simpl.
  - by apply loadInstallations_uniquePaths.
  - destruct w as [[l ld er sel mp iv] t]. unfold_handlers. simpl.
    destruct (truthyPath (selectedPath props)); [|done].
    destruct l as [|x l]; [done|]. by destruct (findByPath _ _).
  - done.
  - unfold_handlers. simpl. by destruct (findByPath _ _).
  - done.
  - by apply addManualInstallation_uniquePaths.
  - by apply addManualInstallation_uniquePaths.
  - destruct (handleBrowseFile_installations w) as [->|[p ->]]; [done|].
    by apply filter_other_paths_unique.
  - done.
Qed.

Lemma perform_completes (a : Action) (w : World) :
  completion (perform api props a) w = Normal ().
Proof.
  destruct a; simpl.
  - apply loadInstallations_completes.
  - destruct w as [[l ld er sel mp iv] t]. unfold_handlers. simpl.
    destruct (truthyPath (selectedPath props)); [|done].
    destruct l as [|x l]; [done|]. by destruct (findByPath _ _).
  - done.
  - unfold_handlers. simpl. by destruct (findByPath _ _).
  - done.
  - apply addManualInstallation_completes.
  - apply addManualInstallation_completes.
  - unfold completion, handleBrowseFile, tryCatch, tryCatchFinally.
    destruct (openIsFunction api); [|done].
    unfold mbind, Handler_bind, await. simpl.
    destruct (open api) as [[s|]|e]; simpl; [|done..].
    destruct (truthy s); simpl; [|done].
    pose proof (addManualInstallation_completes api
      {| state := state w; trace := trace w ++ [CallOpen] |} s) as Hc.
    unfold completion in Hc.
    destruct (addManualInstallation api s _) as [c w1].
    simpl in Hc. by subst c.
  - done.
Qed.

End UniquePaths.

(** C5. Provided every discovery result has pairwise distinct paths, the
    candidate list has pairwise distinct paths after any sequence of
    operations on a list that had them: the load on mount (with or without a
    synthesized entry for the persisted path), a manual-path submission typed
    or picked in the file dialog, a selection, the [selectedPath] effect.  In
    particular it holds throughout the life of a component, which starts with
    the empty list. *)
Theorem uniquePaths_invariant (api : Api) (props : Props) (acts : list Action) (w : World) :
  (∀ l, listClaudeInstallations api = Fulfilled l → uniquePaths l) →
  uniquePaths (installations (state w)) →
  uniquePaths (installations (state (after (performAll api props acts) w))).
Proof.
  intros Hd. revert w. induction acts as [|a acts IH]; intros w Hw; [done|].
  simpl. pose proof (perform_completes api props a w) as Hc.
  pose proof (perform_uniquePaths api props Hd a w Hw) as Hu.
  unfold after, completion in *. unfold mbind, Handler_bind.
  destruct (perform api props a w) as [c w1]. simpl in *. subst c.
  by apply IH.
Qed.

Lemma uniquePaths_invariant_witness :
  uniquePaths (installations (state (after
    (performAll
       (Examples.acceptingApi (Fulfilled [Examples.usrBinClaude; Examples.homebrewClaude]))
       (Examples.persisted "/usr/local/bin/claude")
       [Mount; SelectedPathEffect; SubmitPath (js " /usr/bin/claude");
        ClickCard Examples.homebrewClaude; SubmitPath (js "/usr/local/bin/claude")])
    initialWorld))).
Proof.
  apply (uniquePaths_invariant
           (Examples.acceptingApi (Fulfilled [Examples.usrBinClaude; Examples.homebrewClaude]))
           (Examples.persisted "/usr/local/bin/claude")
           [Mount; SelectedPathEffect; SubmitPath (js " /usr/bin/claude");
            ClickCard Examples.homebrewClaude; SubmitPath (js "/usr/local/bin/claude")]
           initialWorld).
  - intros l [= <-]. unfold uniquePaths. refine (bool_decide_unpack _ _). vm_compute. exact I.
  - constructor.
Defined.

(** ** Discovery that finds nothing *)

Lemma loadInstallations_installations
    (api : Api) (props : Props) (l : list ClaudeInstallation) (w : World) :
  listClaudeInstallations api = Fulfilled l →
  installations (state (after (loadInstallations api props) w)) =
    match truthyPath (selectedPath props) with
    | Some p => match findByPath p l with
                | Some _ => l
                | None => manualInstallationFor p :: l
                end
    | None => l
    end.
Proof.
  intros Hl. unfold after.
  destruct (truthyPath (selectedPath props)) as [p|] eqn:Hp.
  - destruct (findByPath p l) as [found|] eqn:Hf.
    + by rewrite (loadInstallations_found _ _ _ l p found).
    + by rewrite (loadInstallations_synthesized _ _ _ l p).
  - destruct l as [|first rest].
    + by rewrite loadInstallations_none.
    + by rewrite (loadInstallations_auto _ _ _ first rest).
Qed.

(** C6, as the code has it.  When discovery returns nothing or the discovery
    call is rejected, the load on mount completes normally and stops
    loading.  The list is then empty, unless discovery was fulfilled and a
    truthy [selectedPath] is set: then it holds the one entry synthesized for
    that path.  A rejection becomes the [error].  A later submission that the
    validator accepts completes normally, stands first in the list and is
    the selected installation. *)
Theorem loadInstallations_nothing_found (api : Api) (props : Props) :
  listClaudeInstallations api = Fulfilled [] ∨
    (∃ err, listClaudeInstallations api = Rejected err) →
  completion (loadInstallations api props) initialWorld = Normal () ∧
  loading (state (after (loadInstallations api props) initialWorld)) = false ∧
  installations (state (after (loadInstallations api props) initialWorld)) =
    match listClaudeInstallations api, truthyPath (selectedPath props) with
    | Fulfilled _, Some p => [manualInstallationFor p]
    | _, _ => []
    end ∧
  (∀ err, listClaudeInstallations api = Rejected err →
     error (state (after (loadInstallations api props) initialWorld))
       = Some (errorMessage err (js "Failed to load Claude installations"))) ∧
  (∀ p, trim p ≠ [] → setClaudeBinaryPath api (trim p) = Fulfilled () →
     completion (addManualInstallation api p)
       (after (loadInstallations api props) initialWorld) = Normal () ∧
     head (installations (state (after (addManualInstallation api p)
       (after (loadInstallations api props) initialWorld))))
       = Some (manualInstallationFor (trim p)) ∧
     selectedInstallation (state (after (addManualInstallation api p)
       (after (loadInstallations api props) initialWorld)))
       = Some (manualInstallationFor (trim p))).
Proof.
  intros Hnone. split_and!.
  - apply loadInstallations_completes.
  - unfold after. destruct Hnone as [Hl|[err Hl]].
    + destruct (truthyPath (selectedPath props)) as [p|] eqn:Hp.
      * by rewrite (loadInstallations_synthesized _ _ _ [] p).
      * by rewrite loadInstallations_none.
    + by rewrite (loadInstallations_rejected _ _ _ err).
  - destruct Hnone as [Hl|[err Hl]].
    + rewrite (loadInstallations_installations _ _ [] _ Hl). rewrite Hl.
      by destruct (truthyPath (selectedPath props)).
    + unfold after. rewrite (loadInstallations_rejected _ _ _ err) by done.
      by rewrite Hl.
  - intros err Hl. unfold after. by rewrite (loadInstallations_rejected _ _ _ err).
  - intros p Hp Hok. split; [apply addManualInstallation_completes|].
    unfold after at 1 3. by rewrite addManualInstallation_fulfilled.
Qed.

Lemma loadInstallations_nothing_found_witness :
  installations (state (after
      (loadInstallations
         (Examples.acceptingApi (Rejected (ThrownError (js "spawn failed"))))
         Examples.noProps) initialWorld)) = [] ∧
  selectedInstallation (state (after
      (addManualInstallation
         (Examples.acceptingApi (Rejected (ThrownError (js "spawn failed"))))
         (js "/usr/local/bin/claude"))
      (after (loadInstallations
         (Examples.acceptingApi (Rejected (ThrownError (js "spawn failed"))))
         Examples.noProps) initialWorld)))
    = Some (manualInstallationFor (js "/usr/local/bin/claude")).
Proof.
  pose proof (loadInstallations_nothing_found
           (Examples.acceptingApi (Rejected (ThrownError (js "spawn failed"))))
           Examples.noProps) as H.
  destruct H as (_ & _ & Hlist & _ & Hnext).
  - right. exists (ThrownError (js "spawn failed")). reflexivity.
  - split; [exact Hlist|].
    apply (Hnext (js "/usr/local/bin/claude")); [vm_compute; discriminate | reflexivity].
Defined.

(** C6 as stated fails: with a persisted path and nothing discovered the
    list is not empty, it holds the entry synthesized for that path. *)
Lemma loadInstallations_nothing_found_not_empty :
  listClaudeInstallations (Examples.acceptingApi (Fulfilled [])) = Fulfilled [] ∧
  installations (state (after
      (loadInstallations (Examples.acceptingApi (Fulfilled []))
         (Examples.persisted "/old/bin/claude")) initialWorld))
    = [manualInstallationFor (js "/old/bin/claude")] ∧
  installations (state (after
      (loadInstallations (Examples.acceptingApi (Fulfilled []))
         (Examples.persisted "/old/bin/claude")) initialWorld)) ≠ [].
Proof. split_and!; [reflexivity | reflexivity | discriminate]. Qed.

(** ** The order of the discovered list *)

Section Ranking.
Import Discovery.

#[local] Instance keyLe_total : Total keyLe.
Proof. intros [[a b] c] [[a' b'] c']. unfold keyLe. simpl. lia. Qed.

#[local] Instance keyLe_trans : Transitive keyLe.
Proof. intros [[a b] c] [[a' b'] c'] [[a'' b''] c'']. unfold keyLe. simpl. lia. Qed.

Lemma keyLe_antisym (x y : nat * nat * nat) : keyLe x y → keyLe y x → x = y.
Proof.
  destruct x as [[a b] c], y as [[a' b'] c']. unfold keyLe. simpl.
  intros H1 H2. assert (a = a' ∧ b = b' ∧ c = c') as (-> & -> & ->) by lia. done.
Qed.

#[local] Instance precedes_total : Total precedes.
Proof. intros a b. apply keyLe_total. Qed.

#[local] Instance precedes_trans : Transitive precedes.
Proof. intros a b c. apply keyLe_trans. Qed.

Lemma rankKey_inj_on (l : list Candidate) (x y : Candidate) :
  NoDup (rankKey <$> l) → x ∈ l → y ∈ l → rankKey x = rankKey y → x = y.
Proof.
  induction l as [|z l IH]; [by inversion 2|].
  rewrite fmap_cons, NoDup_cons. intros [Hz Hl] Hx Hy Hk.
  apply elem_of_cons in Hx as [->|Hx], Hy as [->|Hy]; [done| | |by apply IH].
  - destruct Hz. rewrite Hk. by apply list_elem_of_fmap_2.
  - destruct Hz. rewrite <- Hk. by apply list_elem_of_fmap_2.
Qed.

(** The ranked sequence does not depend on the order of arrival. *)
Lemma ranked_arrival_independent (arrived1 arrived2 : list Candidate) :
  arrived1 ≡ₚ arrived2 →
  NoDup (rankKey <$> arrived1) →
  merge_sort precedes arrived1 = merge_sort precedes arrived2.
Proof.
  intros Hperm Hkeys. apply (Sorted_unique_strong precedes).
  - intros x y Hx Hy Hxy Hyx.
    rewrite merge_sort_Permutation in Hx. rewrite merge_sort_Permutation, <- Hperm in Hy.
    apply (rankKey_inj_on arrived1); [done..|]. by apply keyLe_antisym.
  - apply Sorted_merge_sort, _.
  - apply Sorted_merge_sort, _.
  - by rewrite !merge_sort_Permutation.
Qed.

End Ranking.

(** C7.  Take the validated candidates of one snapshot in two orders of
    arrival (each candidate known by its enumerator and its position in that
    enumerator's output).  The ranker returns the same list, in the same
    order, for both; and a load that awaits the one and a load that awaits
    the other, from whatever state each starts, leave the same candidate
    list in the same order. *)
Theorem discovery_order_deterministic
    (realpath : jsstring → jsstring) (tagOf : Discovery.Source → jsstring)
    (arrived1 arrived2 : list Discovery.Candidate)
    (api1 api2 : Api) (props : Props) (w1 w2 : World) :
  arrived1 ≡ₚ arrived2 →
  NoDup (Discovery.rankKey <$> arrived1) →
  listClaudeInstallations api1 = Fulfilled (Discovery.discover realpath tagOf arrived1) →
  listClaudeInstallations api2 = Fulfilled (Discovery.discover realpath tagOf arrived2) →
  Discovery.discover realpath tagOf arrived1 = Discovery.discover realpath tagOf arrived2 ∧
  installations (state (after (loadInstallations api1 props) w1))
    = installations (state (after (loadInstallations api2 props) w2)).
Proof.
  intros Hperm Hkeys H1 H2.
  assert (Discovery.discover realpath tagOf arrived1
          = Discovery.discover realpath tagOf arrived2) as Heq.
  { unfold Discovery.discover. by rewrite (ranked_arrival_independent arrived1 arrived2). }
  split; [done|].
  rewrite (loadInstallations_installations _ _ _ _ H1).
  rewrite (loadInstallations_installations _ _ _ _ H2).
  by rewrite Heq.
Qed.

Lemma discovery_order_deterministic_witness :
  Discovery.discover id Examples.tagOf [Examples.homebrewCandidate; Examples.pathCandidate]
    = Discovery.discover id Examples.tagOf [Examples.pathCandidate; Examples.homebrewCandidate] ∧
  installations (state (after
      (loadInstallations
         (Examples.acceptingApi (Fulfilled (Discovery.discover id Examples.tagOf
            [Examples.homebrewCandidate; Examples.pathCandidate])))
         Examples.noProps) initialWorld))
    = installations (state (after
      (loadInstallations
         (Examples.acceptingApi (Fulfilled (Discovery.discover id Examples.tagOf
            [Examples.pathCandidate; Examples.homebrewCandidate])))
         Examples.noProps)
      (Examples.worldWith [Examples.usrLocalClaude] None))).
Proof.
  apply (discovery_order_deterministic id Examples.tagOf
           [Examples.homebrewCandidate; Examples.pathCandidate]
           [Examples.pathCandidate; Examples.homebrewCandidate]).
  - apply Permutation_swap.
  - refine (bool_decide_unpack _ _). vm_compute. exact I.
  - reflexivity.
  - reflexivity.
Defined.

(** ** Source tags and their labels *)

Lemma startsWith_nvm_not_recognised (s : jsstring) :
  startsWith (js "nvm") s = true → s ∉ recognisedTags.
Proof.
  intros Hs Hin. unfold recognisedTags in Hin. simpl in Hin.
  repeat (apply elem_of_cons in Hin as [->|Hin]; [by vm_compute in Hs|]).
  by apply elem_of_nil in Hin.
Qed.

(** C8, as the code has it.  [source] is an open string.  The component has
    a branch for ten tags, among them [which] for the system PATH and
    [claude-local] for the local cache, and for every tag that starts with
    [nvm]; any other tag is shown as it is, [source-path], [system-path] and
    [ecosystem-local] included.  A discovered installation is kept in the list
    whatever its tag. *)
Theorem getSourceLabel_recognised_tags :
  getSourceLabel <$> recognisedTags
    = js <$> ["System PATH"; "Homebrew"; "System"; "Local bin"; "Claude local";
              "NPM global"; "Yarn"; "Yarn"; "Bun"; "Manual Selection"]%string ∧
  (∀ s, startsWith (js "nvm") s = true →
     getSourceLabel s = replace (js "nvm ") (js "NVM ") s) ∧
  (∀ s, s ∉ recognisedTags → startsWith (js "nvm") s = false → getSourceLabel s = s) ∧
  getSourceLabel (js "source-path") = js "source-path" ∧
  getSourceLabel (js "system-path") = js "system-path" ∧
  getSourceLabel (js "ecosystem-local") = js "ecosystem-local" ∧
  (∀ api props w l i,
     listClaudeInstallations api = Fulfilled l → i ∈ l →
     i ∈ installations (state (after (loadInstallations api props) w))).
Proof.
  split_and!; try reflexivity.
  - intros s Hs. pose proof (startsWith_nvm_not_recognised s Hs) as Hn.
    unfold getSourceLabel. rewrite Hs.
    repeat (case_bool_decide as Heq;
            [exfalso; apply Hn; rewrite Heq; unfold recognisedTags; simpl;
             repeat first [apply list_elem_of_here | apply list_elem_of_further]
            |clear Heq; simpl]).
    done.
  - intros s Hn Hs. unfold getSourceLabel. rewrite Hs.
    repeat (case_bool_decide as Heq;
            [exfalso; apply Hn; rewrite Heq; unfold recognisedTags; simpl;
             repeat first [apply list_elem_of_here | apply list_elem_of_further]
            |clear Heq; simpl]).
    done.
  - intros api props w l i Hl Hi.
    rewrite (loadInstallations_installations _ _ _ _ Hl).
    destruct (truthyPath (selectedPath props)) as [p|]; [|done].
    destruct (findByPath p l); [done|]. by apply list_elem_of_further.
Qed.

(** C8 as stated fails: the tag that stands for the system PATH is [which],
    not [source-path], and the one for the local cache is [claude-local], not
    [ecosystem-local]; neither is a tag of the specification's list, and a
    discovered installation that carries one is kept as it is. *)
Lemma source_tags_not_as_specified :
  (getSourceLabel (js "which") = js "System PATH" ∧
   js "which" ≠ js "source-path" ∧ js "which" ∉ specSourceTags) ∧
  (getSourceLabel (js "claude-local") = js "Claude local" ∧
   js "claude-local" ≠ js "ecosystem-local" ∧ js "claude-local" ∉ specSourceTags) ∧
  getSourceLabel (js "source-path") ≠ js "System PATH" ∧
  getSourceLabel (js "ecosystem-local") ≠ js "Claude local" ∧
  (∃ i, i ∈ installations (state (after
            (loadInstallations (Examples.acceptingApi (Fulfilled [Examples.usrBinClaude]))
               Examples.noProps) initialWorld)) ∧
        source i ∉ specSourceTags).
Proof.
  assert (∀ s : jsstring, bool_decide (s ∈ specSourceTags) = false → s ∉ specSourceTags)
    as Hout.
  { intros s Hs Hin. apply bool_decide_eq_false in Hs. done. }
  split_and!; try reflexivity; try (vm_compute; discriminate); try (by apply Hout).
  exists Examples.usrBinClaude. split; [apply list_elem_of_here | by apply Hout].
Qed.

(** ** The [selectedPath] effect after a submission *)

(** The effect runs again whenever the list changes.  After an accepted
    submission it keeps the new entry selected when the prop is not truthy or
    names the submitted path. *)
Lemma selectedPathEffect_keeps_manual (api : Api) (props : Props) (p : jsstring) (w : World) :
  trim p ≠ [] →
  setClaudeBinaryPath api (trim p) = Fulfilled () →
  truthyPath (selectedPath props) = None ∨ truthyPath (selectedPath props) = Some (trim p) →
  selectedInstallation (state (after (selectedPathEffect props)
      (after (addManualInstallation api p) w)))
    = Some (manualInstallationFor (trim p)).
Proof.
  intros Hp Hok Hsel. unfold after at 2.
  rewrite addManualInstallation_fulfilled by done.
  unfold_handlers. simpl. destruct Hsel as [-> | ->]; [done|].
  unfold findByPath. simpl. by rewrite decide_True.
Qed.

(** When the prop still names another entry of the list, the effect selects
    that entry again. *)
Example selectedPathEffect_reselects_prop :
  selectedInstallation (state (after
      (performAll (Examples.acceptingApi (Fulfilled [Examples.usrBinClaude]))
         (Examples.persisted "/usr/bin/claude")
         [Mount; SelectedPathEffect; SubmitPath (js "/tmp/claude")]) initialWorld))
    = Some (manualInstallationFor (js "/tmp/claude")) ∧
  selectedInstallation (state (after
      (performAll (Examples.acceptingApi (Fulfilled [Examples.usrBinClaude]))
         (Examples.persisted "/usr/bin/claude")
         [Mount; SelectedPathEffect; SubmitPath (js "/tmp/claude"); SelectedPathEffect])
      initialWorld))
    = Some Examples.usrBinClaude.
Proof. split; reflexivity. Qed.

(** * Further properties of the code *)

(** ** More on strings *)

Lemma startsWith_spec (p s : jsstring) :
  startsWith p s = true ↔ ∃ post, s = p ++ post.
Proof.
  revert s. induction p as [|a p IH]; intros s; simpl.
  - split; [by exists s | done].
  - destruct s as [|b s].
    + split; [done | by intros [post ?]].
    + rewrite andb_true_iff, N.eqb_eq, IH. split.
      * intros [-> [post ->]]. by exists post.
      * intros [post [= -> ->]]. split; [done | by exists post].
Qed.

Lemma includes_spec (p s : jsstring) :
  includes p s = true ↔ ∃ pre post, s = pre ++ p ++ post.
Proof.
  induction s as [|c s IH]; simpl.
  - rewrite orb_false_r, startsWith_spec. split.
    + intros [post Hp]. by exists [], post.
    + intros (pre & post & Hs). symmetry in Hs.
      apply app_eq_nil in Hs as [-> Hs]. apply app_eq_nil in Hs as [-> ->]. by exists [].
  - rewrite orb_true_iff, startsWith_spec, IH. split.
    + intros [[post Hs]|(pre & post & ->)]; [by exists [], post | by exists (c :: pre), post].
    + intros ([|d pre] & post & Hs).
      * left. by exists post.
      * right. injection Hs as -> ->. by exists pre, post.
Qed.

Lemma startsWith_includes (p s : jsstring) :
  startsWith p s = true → includes p s = true.
Proof. rewrite startsWith_spec, includes_spec. intros [post ->]. by exists [], post. Qed.

(** A string that lacks one of the characters of [p] does not include [p]. *)
Lemma includes_missing_char (p s : jsstring) (c : N) :
  c ∈ p → c ∉ s → includes p s = false.
Proof.
  intros Hp Hs. apply not_true_is_false. rewrite includes_spec.
  intros (pre & post & ->). apply Hs.
  rewrite !elem_of_app. auto.
Qed.

Lemma startsWith_missing_char (p s : jsstring) (c : N) :
  c ∈ p → c ∉ s → startsWith p s = false.
Proof.
  intros Hp Hs. apply not_true_is_false. intros H.
  apply startsWith_includes in H. by rewrite (includes_missing_char p s c) in H.
Qed.

Lemma trimStart_fixed (s : jsstring) :
  (∀ c, head s = Some c → isWhiteSpace c = false) → trimStart s = s.
Proof. destruct s as [|c s]; [done|]. simpl. intros H. by rewrite (H c). Qed.

Lemma trimStart_whitespace_app (pre s : jsstring) :
  Forall (λ c, isWhiteSpace c = true) pre → trimStart (pre ++ s) = trimStart s.
Proof. induction 1 as [|c pre Hc _ IH]; [done|]. simpl. by rewrite Hc. Qed.

Lemma trimStart_app (s x : jsstring) :
  trimStart s ≠ [] → trimStart (s ++ x) = trimStart s ++ x.
Proof.
  induction s as [|c s IH]; simpl; [done|].
  destruct (isWhiteSpace c); [done|]. done.
Qed.

Lemma trimEnd_whitespace_app (s post : jsstring) :
  Forall (λ c, isWhiteSpace c = true) post → trimEnd (s ++ post) = trimEnd s.
Proof.
  intros Hpost. unfold trimEnd. rewrite reverse_app.
  rewrite trimStart_whitespace_app; [done|]. by apply Forall_reverse.
Qed.

(** White space around a string does not change what it trims to. *)
Lemma trim_surrounding (pre s post : jsstring) :
  Forall (λ c, isWhiteSpace c = true) pre →
  Forall (λ c, isWhiteSpace c = true) post →
  trim (pre ++ s ++ post) = trim s.
Proof.
  intros Hpre Hpost. unfold trim. rewrite trimStart_whitespace_app by done.
  destruct (decide (trimStart s = [])) as [Hs|Hs].
  - rewrite Hs. apply trimStart_nil_iff in Hs.
    assert (trimStart (s ++ post) = []) as ->; [|done].
    apply trimStart_nil_iff. by apply Forall_app.
  - rewrite trimStart_app by done. by apply trimEnd_whitespace_app.
Qed.

Lemma trim_idempotent (s : jsstring) : trim (trim s) = trim s.
Proof.
  destruct (trim_spec s) as (pre & post & Hs & Hpre & Hpost & _).
  rewrite Hs at 2. by rewrite trim_surrounding.
Qed.

Lemma replace_at_start (pat rep s : jsstring) :
  replace pat rep (pat ++ s) = rep ++ s.
Proof.
  assert (startsWith pat (pat ++ s) = true) as Hp by (apply startsWith_spec; by exists s).
  destruct pat as [|a pat].
  - simpl. by destruct s.
  - simpl in *. rewrite Hp. by rewrite drop_app_length.
Qed.

Lemma replace_nonempty (pat rep s : jsstring) :
  rep ≠ [] → s ≠ [] → replace pat rep s ≠ [].
Proof.
  intros Hrep Hs. destruct s as [|c s]; [done|]. simpl.
  destruct (startsWith pat (c :: s)); [|done].
  destruct rep; [done|]. done.
Qed.

(** ** Icons and labels *)

(** X1. [getSourceIcon] gives the plus icon to the tag [manual] and to no
    other; it gives the package icon exactly to the tags that contain [nvm],
    among them every tag that [getSourceLabel] sends through its [nvm]
    branch. *)
Theorem getSourceIcon_cases (s : jsstring) :
  (getSourceIcon s = Plus ↔ s = js "manual") ∧
  (getSourceIcon s = Package ↔ ∃ pre post, s = pre ++ js "nvm" ++ post) ∧
  (startsWith (js "nvm") s = true → getSourceIcon s = Package).
Proof.
  unfold getSourceIcon. split_and!.
  - destruct (includes (js "nvm") s) eqn:Hi.
    + split; [done|]. intros ->. by vm_compute in Hi.
    + case_bool_decide; [done|]. by split.
  - rewrite <- includes_spec. destruct (includes (js "nvm") s); [done|].
    by case_bool_decide.
  - intros Hs. by rewrite (startsWith_includes _ _ Hs).
Qed.

Lemma getSourceIcon_cases_witness : getSourceIcon (js "nvm v20.11.0") = Package.
Proof. apply (getSourceIcon_cases (js "nvm v20.11.0")). reflexivity. Defined.

Lemma getSourceLabel_nvm (s : jsstring) :
  startsWith (js "nvm") s = true →
  getSourceLabel s = replace (js "nvm ") (js "NVM ") s.
Proof.
  intros Hs. pose proof (startsWith_nvm_not_recognised s Hs) as Hn.
  unfold getSourceLabel. rewrite Hs.
  repeat (case_bool_decide as Heq;
          [exfalso; apply Hn; rewrite Heq; unfold recognisedTags; simpl;
           repeat first [apply list_elem_of_here | apply list_elem_of_further]
          |clear Heq; simpl]).
  done.
Qed.

(** X2. A tag made of [nvm], a space and a version is labelled [NVM], a
    space and that version, and carries the package icon. *)
Theorem getSourceLabel_nvm_version (v : jsstring) :
  getSourceLabel (js "nvm " ++ v) = js "NVM " ++ v ∧
  getSourceIcon (js "nvm " ++ v) = Package.
Proof.
  assert (startsWith (js "nvm") (js "nvm " ++ v) = true) as Hs by reflexivity.
  split.
  - rewrite getSourceLabel_nvm by done. apply replace_at_start.
  - unfold getSourceIcon. by rewrite (startsWith_includes _ _ Hs).
Qed.

(** X3. Only the empty tag has an empty label: every card of an entry with
    a tag shows some text for it. *)
Theorem getSourceLabel_nonempty (s : jsstring) :
  getSourceLabel s = [] ↔ s = [].
Proof.
  split; [|by intros ->].
  intros Hl. destruct (decide (s = [])) as [|Hs]; [done|]. exfalso.
  destruct (startsWith (js "nvm") s) eqn:Hn.
  - rewrite getSourceLabel_nvm in Hl by done.
    by apply (replace_nonempty (js "nvm ") (js "NVM ") s).
  - revert Hl. unfold getSourceLabel. rewrite Hn.
    repeat (case_bool_decide; [by vm_compute|]; simpl).
    done.
Qed.

(** ** The [selectedPath] effect *)

(** X4. The effect is silent and idempotent: it completes, calls no
    collaborator and does not notify the caller, touches no state cell but the
    selected installation, and running it again changes nothing more. *)
Theorem selectedPathEffect_silent_idempotent (props : Props) (w : World) :
  completion (selectedPathEffect props) w = Normal () ∧
  trace (after (selectedPathEffect props) w) = trace w ∧
  installations (state (after (selectedPathEffect props) w)) = installations (state w) ∧
  loading (state (after (selectedPathEffect props) w)) = loading (state w) ∧
  error (state (after (selectedPathEffect props) w)) = error (state w) ∧
  manualPath (state (after (selectedPathEffect props) w)) = manualPath (state w) ∧
  isValidatingManualPath (state (after (selectedPathEffect props) w))
    = isValidatingManualPath (state w) ∧
  after (selectedPathEffect props) (after (selectedPathEffect props) w)
    = after (selectedPathEffect props) w.
Proof.
  destruct w as [[l ld er sel mp iv] t]. unfold_handlers. simpl.
  destruct (truthyPath (selectedPath props)) as [p|]; [|done].
  destruct l as [|x l]; [done|].
  destruct (findByPath p (x :: l)) as [found|] eqn:Hf; simpl; [|by rewrite Hf].
  by rewrite Hf.
Qed.

(** X5. With a truthy [selectedPath]: when an entry of the list has that
    path, the effect selects the first such entry; when none has it, or when
    the prop is not truthy, the effect does nothing at all. *)
Theorem selectedPathEffect_follows_prop (props : Props) (w : World) :
  (∀ p, truthyPath (selectedPath props) = Some p →
     (∃ i, i ∈ installations (state w) ∧ path i = p) →
     ∃ found k,
       installations (state w) !! k = Some found ∧ path found = p ∧
       (∀ j y, installations (state w) !! j = Some y → (j < k)%nat → path y ≠ p) ∧
       selectedInstallation (state (after (selectedPathEffect props) w)) = Some found) ∧
  (∀ p, truthyPath (selectedPath props) = Some p →
     (∀ i, i ∈ installations (state w) → path i ≠ p) →
     selectedPathEffect props w = (Normal (), w)) ∧
  (truthyPath (selectedPath props) = None → selectedPathEffect props w = (Normal (), w)).
Proof.
  destruct w as [[l ld er sel mp iv] t]. simpl. split_and!.
  - intros p Hp Hex. apply findByPath_is_Some in Hex as [found Hf].
    destruct (findByPath_Some _ _ _ Hf) as (k & Hk & Hpath & Hfirst).
    exists found, k. split_and!; try done.
    unfold_handlers. simpl. rewrite Hp.
    destruct l as [|x l]; [done|]. by rewrite Hf.
  - intros p Hp Hnone. apply findByPath_None in Hnone.
    unfold_handlers. simpl. rewrite Hp.
    destruct l as [|x l]; [done|]. by rewrite Hnone.
  - intros Hp. unfold_handlers. simpl. by rewrite Hp.
Qed.

Lemma selectedPathEffect_follows_prop_witness :
  ∃ found,
    path found = js "/opt/homebrew/bin/claude" ∧
    selectedInstallation (state (after
        (selectedPathEffect (Examples.persisted "/opt/homebrew/bin/claude"))
        (Examples.worldWith [Examples.usrBinClaude; Examples.homebrewClaude]
           (Some Examples.usrBinClaude))))
      = Some found.
Proof.
  pose proof (selectedPathEffect_follows_prop
                (Examples.persisted "/opt/homebrew/bin/claude")
                (Examples.worldWith [Examples.usrBinClaude; Examples.homebrewClaude]
                   (Some Examples.usrBinClaude))) as (H & _ & _).
  destruct (H (js "/opt/homebrew/bin/claude")) as (found & k & _ & Hpath & _ & Hsel).
  - reflexivity.
  - exists Examples.homebrewClaude. split; [|reflexivity].
    apply list_elem_of_further, list_elem_of_here.
  - exists found. split; [exact Hpath | exact Hsel].
Defined.

(** ** The radio group *)

(** X6. A value that is the path of no entry leaves the world as it is;
    otherwise [onValueChange] does what [handleSelect] does on the first entry
    with that path, an entry of the list. *)
Theorem onValueChange_selects_listed (value : jsstring) (w : World) :
  ((∀ i, i ∈ installations (state w) → path i ≠ value) →
     onValueChange value w = (Normal (), w)) ∧
  ((∃ i, i ∈ installations (state w) ∧ path i = value) →
     ∃ found k,
       installations (state w) !! k = Some found ∧ path found = value ∧
       (∀ j y, installations (state w) !! j = Some y → (j < k)%nat → path y ≠ value) ∧
       onValueChange value w = handleSelect found w).
Proof.
  split.
  - intros Hnone. apply findByPath_None in Hnone.
    unfold onValueChange, getState, mbind, Handler_bind. by rewrite Hnone.
  - intros Hex. apply findByPath_is_Some in Hex as [found Hf].
    destruct (findByPath_Some _ _ _ Hf) as (k & Hk & Hpath & Hfirst).
    exists found, k. split_and!; try done.
    unfold onValueChange, getState, mbind, Handler_bind. by rewrite Hf.
Qed.

Lemma onValueChange_selects_listed_witness :
  onValueChange (js "/nowhere")
      (Examples.worldWith [Examples.usrBinClaude] (Some Examples.usrBinClaude))
    = (Normal (), Examples.worldWith [Examples.usrBinClaude] (Some Examples.usrBinClaude)).
Proof.
  apply (onValueChange_selects_listed (js "/nowhere")
           (Examples.worldWith [Examples.usrBinClaude] (Some Examples.usrBinClaude))).
  intros i Hi. apply list_elem_of_singleton in Hi as ->. vm_compute. discriminate.
Defined.

(** ** The file dialog *)

Section Browse.
Variable api : Api.

Lemma handleBrowseFile_no_dialog (w : World) :
  openIsFunction api = false →
  handleBrowseFile api w =
    (Normal (),
     {| state := {| installations := installations (state w);
                    loading := loading (state w);
                    error := Some (js "File browser is only available in the desktop app");
                    selectedInstallation := selectedInstallation (state w);
                    manualPath := manualPath (state w);
                    isValidatingManualPath := isValidatingManualPath (state w) |};
        trace := trace w |}).
Proof. intros H. unfold handleBrowseFile. rewrite H. by run_handler. Qed.

Lemma handleBrowseFile_rejected (w : World) (err : Thrown) :
  openIsFunction api = true →
  open api = Rejected err →
  handleBrowseFile api w =
    (Normal (),
     {| state := {| installations := installations (state w);
                    loading := loading (state w);
                    error := Some (js "Failed to open file browser. Please use manual path input instead.");
                    selectedInstallation := selectedInstallation (state w);
                    manualPath := manualPath (state w);
                    isValidatingManualPath := isValidatingManualPath (state w) |};
        trace := trace w ++ [CallOpen; ConsoleError (js "Failed to select file:") err] |}).
Proof. intros H Ho. unfold handleBrowseFile. rewrite H. run_handler. rewrite Ho. by run_handler. Qed.

Lemma handleBrowseFile_cancelled (w : World) (selected : option jsstring) :
  openIsFunction api = true →
  open api = Fulfilled selected →
  selected = None ∨ selected = Some [] →
  handleBrowseFile api w =
    (Normal (), {| state := state w; trace := trace w ++ [CallOpen] |}).
Proof.
  intros H Ho Hs. unfold handleBrowseFile. rewrite H. run_handler. rewrite Ho.
  by destruct Hs as [-> | ->].
Qed.

Lemma handleBrowseFile_picked (w : World) (s : jsstring) :
  openIsFunction api = true →
  open api = Fulfilled (Some s) →
  s ≠ [] →
  handleBrowseFile api w =
    addManualInstallation api s {| state := state w; trace := trace w ++ [CallOpen] |}.
Proof.
  intros H Ho Hs. apply truthy_true_iff in Hs.
  pose proof (addManualInstallation_completes api
    {| state := state w; trace := trace w ++ [CallOpen] |} s) as Hc.
  unfold completion in Hc.
  unfold handleBrowseFile, tryCatch, tryCatchFinally. rewrite H.
  unfold mbind, Handler_bind, await. simpl. rewrite Ho, Hs.
  destruct (addManualInstallation api s _) as [c w1]. simpl in *. by subst c.
Qed.

End Browse.

(** X7. When the dialog cannot be opened, because [open] is missing or
    because it rejects, the candidate list and the selection stay as they
    are, the validator is not called, the caller is not notified, and a fixed
    message becomes the error; a missing [open] is not even called. *)
Theorem handleBrowseFile_unavailable (api : Api) (w : World) :
  openIsFunction api = false ∨ (∃ err, open api = Rejected err) →
  completion (handleBrowseFile api) w = Normal () ∧
  installations (state (after (handleBrowseFile api) w)) = installations (state w) ∧
  selectedInstallation (state (after (handleBrowseFile api) w))
    = selectedInstallation (state w) ∧
  validatorCalls (trace (after (handleBrowseFile api) w)) = validatorCalls (trace w) ∧
  notified (trace (after (handleBrowseFile api) w)) = notified (trace w) ∧
  error (state (after (handleBrowseFile api) w)) =
    Some (if openIsFunction api
          then js "Failed to open file browser. Please use manual path input instead."
          else js "File browser is only available in the desktop app") ∧
  (openIsFunction api = false → trace (after (handleBrowseFile api) w) = trace w).
Proof.
  intros Hun. unfold completion, after.
  destruct (openIsFunction api) eqn:Hf.
  - destruct Hun as [|[err Ho]]; [done|].
    rewrite (handleBrowseFile_rejected _ _ err) by done. simpl.
    rewrite validatorCalls_app, notified_app. simpl. by rewrite !app_nil_r.
  - by rewrite handleBrowseFile_no_dialog.
Qed.

Lemma handleBrowseFile_unavailable_witness :
  error (state (after
      (handleBrowseFile
         {| listClaudeInstallations := Fulfilled [];
            setClaudeBinaryPath := λ _, Fulfilled ();
            openIsFunction := false;
            open := Fulfilled (Some (js "/usr/bin/claude")) |}) initialWorld))
    = Some (js "File browser is only available in the desktop app").
Proof.
  apply (handleBrowseFile_unavailable
           {| listClaudeInstallations := Fulfilled [];
              setClaudeBinaryPath := λ _, Fulfilled ();
              openIsFunction := false;
              open := Fulfilled (Some (js "/usr/bin/claude")) |} initialWorld).
  left. reflexivity.
Defined.

(** X8. When the dialog is closed without a file ([null], or an empty
    string), nothing changes, not even the error on display; when it returns
    a path, browsing does exactly what a submission of that path does. *)
Theorem handleBrowseFile_as_submission (api : Api) (w : World) (selected : option jsstring) :
  openIsFunction api = true →
  open api = Fulfilled selected →
  handleBrowseFile api w =
    match selected with
    | Some (c :: s) =>
        addManualInstallation api (c :: s) {| state := state w; trace := trace w ++ [CallOpen] |}
    | _ => (Normal (), {| state := state w; trace := trace w ++ [CallOpen] |})
    end.
Proof.
  intros H Ho. destruct selected as [[|c s]|].
  - apply (handleBrowseFile_cancelled _ _ (Some [])); auto.
  - by apply handleBrowseFile_picked.
  - apply (handleBrowseFile_cancelled _ _ None); auto.
Qed.

Lemma handleBrowseFile_as_submission_witness :
  selectedInstallation (state (after
      (handleBrowseFile
         {| listClaudeInstallations := Fulfilled [];
            setClaudeBinaryPath := λ _, Fulfilled ();
            openIsFunction := true;
            open := Fulfilled (Some (js "/usr/bin/claude")) |}) initialWorld))
    = Some (manualInstallationFor (js "/usr/bin/claude")).
Proof.
  unfold after.
  rewrite (handleBrowseFile_as_submission
             {| listClaudeInstallations := Fulfilled [];
                setClaudeBinaryPath := λ _, Fulfilled ();
                openIsFunction := true;
                open := Fulfilled (Some (js "/usr/bin/claude")) |}
             initialWorld (Some (js "/usr/bin/claude")) eq_refl eq_refl).
  reflexivity.
Defined.

(** ** More on submissions *)

(** X9. White space around a submitted path plays no part: two submissions
    that differ only in leading and trailing white space do the same. *)
Theorem addManualInstallation_surrounding_space
    (api : Api) (pre p post : jsstring) (w : World) :
  Forall (λ c, isWhiteSpace c = true) pre →
  Forall (λ c, isWhiteSpace c = true) post →
  addManualInstallation api (pre ++ p ++ post) w = addManualInstallation api p w.
Proof.
  intros Hpre Hpost. unfold addManualInstallation.
  by rewrite (trim_surrounding pre p post).
Qed.

Lemma addManualInstallation_surrounding_space_witness :
  addManualInstallation (Examples.acceptingApi (Fulfilled []))
      (js "  " ++ js "/usr/bin/claude" ++ [0x09; 0x0A]) initialWorld
    = addManualInstallation (Examples.acceptingApi (Fulfilled []))
        (js "/usr/bin/claude") initialWorld.
Proof.
  apply (addManualInstallation_surrounding_space (Examples.acceptingApi (Fulfilled []))
           (js "  ") (js "/usr/bin/claude") [0x09; 0x0A] initialWorld).
  - vm_compute. repeat constructor.
  - vm_compute. repeat constructor.
Defined.

(** X10. Whatever the validator answers, a submission leaves every entry with
    another path in the list, in the same order, and makes the list at most
    one entry longer. *)
Theorem addManualInstallation_keeps_others (api : Api) (p : jsstring) (w : World) :
  filter (λ inst, path inst ≠ trim p)
      (installations (state (after (addManualInstallation api p) w)))
    = filter (λ inst, path inst ≠ trim p) (installations (state w)) ∧
  (length (installations (state (after (addManualInstallation api p) w)))
     ≤ S (length (installations (state w))))%nat.
Proof.
  destruct (addManualInstallation_installations api p w) as [-> | ->].
  - split; [done | lia].
  - split.
    + rewrite filter_cons. simpl. rewrite decide_False by (intros H; by apply H).
      by rewrite list_filter_filter_l.
    + simpl. pose proof (length_filter (λ inst, path inst ≠ trim p) (installations (state w))).
      lia.
Qed.

(** X11. Submitting an accepted path once more, with or without white space
    around it, leaves the state as the first submission left it. *)
Theorem addManualInstallation_resubmit (api : Api) (p q : jsstring) (w : World) :
  trim p ≠ [] →
  trim q = trim p →
  setClaudeBinaryPath api (trim p) = Fulfilled () →
  state (after (addManualInstallation api q) (after (addManualInstallation api p) w))
    = state (after (addManualInstallation api p) w).
Proof.
  intros Hp Hq Hok. unfold after.
  rewrite (addManualInstallation_fulfilled api w p) by done. simpl.
  rewrite addManualInstallation_fulfilled by (by rewrite Hq). simpl. rewrite Hq.
  rewrite filter_cons. simpl. rewrite decide_False by (intros H; by apply H).
  by rewrite list_filter_filter_l.
Qed.

Lemma addManualInstallation_resubmit_witness :
  state (after (addManualInstallation (Examples.acceptingApi (Fulfilled []))
                  (js " /usr/bin/claude"))
           (after (addManualInstallation (Examples.acceptingApi (Fulfilled []))
                     (js "/usr/bin/claude"))
              (Examples.worldWith [Examples.usrBinClaude; Examples.homebrewClaude] None)))
    = state (after (addManualInstallation (Examples.acceptingApi (Fulfilled []))
                      (js "/usr/bin/claude"))
               (Examples.worldWith [Examples.usrBinClaude; Examples.homebrewClaude] None)).
Proof.
  apply (addManualInstallation_resubmit (Examples.acceptingApi (Fulfilled []))
           (js "/usr/bin/claude") (js " /usr/bin/claude")
           (Examples.worldWith [Examples.usrBinClaude; Examples.homebrewClaude] None)).
  - vm_compute. discriminate.
  - reflexivity.
  - reflexivity.
Defined.

(** X12. An accepted submission of the typed path empties the input, so that
    submitting again right away does nothing. *)
Theorem handleManualPathSubmit_clears_input (api : Api) (w : World) :
  trim (manualPath (state w)) ≠ [] →
  setClaudeBinaryPath api (trim (manualPath (state w))) = Fulfilled () →
  manualPath (state (after (handleManualPathSubmit api) w)) = [] ∧
  handleManualPathSubmit api (after (handleManualPathSubmit api) w)
    = (Normal (), after (handleManualPathSubmit api) w).
Proof.
  intros Hp Hok.
  assert (handleManualPathSubmit api w = addManualInstallation api (manualPath (state w)) w)
    as Hrun by done.
  unfold after. rewrite Hrun, addManualInstallation_fulfilled by done. simpl.
  split; [done|]. unfold handleManualPathSubmit, getState, mbind, Handler_bind. simpl.
  by apply addManualInstallation_blank.
Qed.

Lemma handleManualPathSubmit_clears_input_witness :
  manualPath (state (after (handleManualPathSubmit (Examples.acceptingApi (Fulfilled [])))
    (after (setManualPath (js "/usr/bin/claude")) initialWorld))) = [].
Proof.
  apply (handleManualPathSubmit_clears_input (Examples.acceptingApi (Fulfilled []))
           (after (setManualPath (js "/usr/bin/claude")) initialWorld)).
  - vm_compute. discriminate.
  - reflexivity.
Defined.

(** X13. An accepted submission does not clear an earlier error: after a
    rejected submission followed by an accepted one, the new path is selected
    and the message of the rejection is still the error. *)
Theorem addManualInstallation_keeps_earlier_error
    (api : Api) (p1 p2 : jsstring) (err : Thrown) (w : World) :
  trim p1 ≠ [] → setClaudeBinaryPath api (trim p1) = Rejected err →
  trim p2 ≠ [] → setClaudeBinaryPath api (trim p2) = Fulfilled () →
  selectedInstallation (state (after (addManualInstallation api p2)
      (after (addManualInstallation api p1) w)))
    = Some (manualInstallationFor (trim p2)) ∧
  error (state (after (addManualInstallation api p2)
      (after (addManualInstallation api p1) w)))
    = Some (errorMessage err (js "Invalid Claude binary path")).
Proof.
  intros Hp1 Hrej Hp2 Hok. unfold after.
  rewrite (addManualInstallation_rejected api w p1 err) by done. simpl.
  by rewrite addManualInstallation_fulfilled.
Qed.

Lemma addManualInstallation_keeps_earlier_error_witness :
  error (state (after
      (addManualInstallation
         {| listClaudeInstallations := Fulfilled [];
            setClaudeBinaryPath := λ p,
              if bool_decide (p = js "/usr/bin/claude") then Fulfilled ()
              else Rejected (ThrownError (js "not executable"));
            openIsFunction := true;
            open := Fulfilled None |} (js "/usr/bin/claude"))
      (after (addManualInstallation
         {| listClaudeInstallations := Fulfilled [];
            setClaudeBinaryPath := λ p,
              if bool_decide (p = js "/usr/bin/claude") then Fulfilled ()
              else Rejected (ThrownError (js "not executable"));
            openIsFunction := true;
            open := Fulfilled None |} (js "/tmp/not-a-file")) initialWorld)))
    = Some (js "not executable").
Proof.
  apply (addManualInstallation_keeps_earlier_error
           {| listClaudeInstallations := Fulfilled [];
              setClaudeBinaryPath := λ p,
                if bool_decide (p = js "/usr/bin/claude") then Fulfilled ()
                else Rejected (ThrownError (js "not executable"));
              openIsFunction := true;
              open := Fulfilled None |}
           (js "/tmp/not-a-file") (js "/usr/bin/claude")
           (ThrownError (js "not executable")) initialWorld).
  - vm_compute. discriminate.
  - reflexivity.
  - vm_compute. discriminate.
  - reflexivity.
Defined.

(** ** Notifications *)

(** X14. The load on mount calls [onSelect] in one case only, the automatic
    pick: no truthy [selectedPath] and a discovery that returns at least one
    entry.  A selection made from the persisted path, found or synthesized, is
    not reported. *)
Theorem loadInstallations_notifies_only_auto_pick (api : Api) (props : Props) (w : World) :
  notified (trace (after (loadInstallations api props) w)) =
    notified (trace w) ++
      match truthyPath (selectedPath props), listClaudeInstallations api with
      | None, Fulfilled (first :: _) => [first]
      | _, _ => []
      end.
Proof.
  unfold after. destruct (listClaudeInstallations api) as [l|e] eqn:Hl.
  - destruct (truthyPath (selectedPath props)) as [p|] eqn:Hp.
    + destruct (findByPath p l) as [found|] eqn:Hf.
      * rewrite (loadInstallations_found _ _ _ l p found) by done. simpl.
        rewrite notified_app. done.
      * rewrite (loadInstallations_synthesized _ _ _ l p) by done. simpl.
        rewrite notified_app. done.
    + destruct l as [|first rest].
      * rewrite loadInstallations_none by done. simpl. by rewrite notified_app.
      * rewrite (loadInstallations_auto _ _ _ first rest) by done. simpl.
        by rewrite notified_app.
  - rewrite (loadInstallations_rejected _ _ _ e) by done. simpl.
    rewrite notified_app. simpl. by destruct (truthyPath _).
Qed.

Lemma addManualInstallation_notifies (api : Api) (p : jsstring) (w : World) :
  notified (trace (after (addManualInstallation api p) w)) = notified (trace w) ∨
  ∃ i, notified (trace (after (addManualInstallation api p) w)) = notified (trace w) ++ [i] ∧
       selectedInstallation (state (after (addManualInstallation api p) w)) = Some i.
Proof.
  unfold after. destruct (decide (trim p = [])) as [Hp|Hp].
  - left. by rewrite addManualInstallation_blank.
  - destruct (setClaudeBinaryPath api (trim p)) as [[]|e] eqn:H.
    + right. exists (manualInstallationFor (trim p)).
      rewrite addManualInstallation_fulfilled by done. simpl. by rewrite notified_app.
    + left. rewrite (addManualInstallation_rejected _ _ _ e) by done. simpl.
      rewrite notified_app. simpl. by rewrite app_nil_r.
Qed.

Lemma selectedPathEffect_trace (props : Props) (w : World) :
  trace (after (selectedPathEffect props) w) = trace w.
Proof.
  destruct w as [[l ld er sel mp iv] t]. unfold_handlers. simpl.
  destruct (truthyPath (selectedPath props)) as [p|]; [|done].
  destruct l as [|x l]; [done|]. by destruct (findByPath p (x :: l)).
Qed.

(** X15. No handler notifies the caller more than once, and an installation
    passed to [onSelect] is the selected installation when the handler
    returns. *)
Theorem perform_notifies_selection (api : Api) (props : Props) (a : Action) (w : World) :
  notified (trace (after (perform api props a) w)) = notified (trace w) ∨
  ∃ i, notified (trace (after (perform api props a) w)) = notified (trace w) ++ [i] ∧
       selectedInstallation (state (after (perform api props a) w)) = Some i.
Proof.
  destruct a; simpl.
  - destruct (truthyPath (selectedPath props)) as [p|] eqn:Hp.
    + left. unfold after. destruct (listClaudeInstallations api) as [l|e] eqn:Hl.
      * destruct (findByPath p l) as [found|] eqn:Hfound.
        -- rewrite (loadInstallations_found _ _ _ l p found) by done. simpl.
           by rewrite notified_app, app_nil_r.
        -- rewrite (loadInstallations_synthesized _ _ _ l p) by done. simpl.
           by rewrite notified_app, app_nil_r.
      * rewrite (loadInstallations_rejected _ _ _ e) by done. simpl.
        by rewrite notified_app, app_nil_r.
    + destruct (listClaudeInstallations api) as [[|first rest]|e] eqn:Hl.
      * left. unfold after. rewrite loadInstallations_none by done. simpl.
        by rewrite notified_app, app_nil_r.
      * right. exists first. unfold after.
        rewrite (loadInstallations_auto _ _ _ first rest) by done. simpl.
        by rewrite notified_app.
      * left. unfold after. rewrite (loadInstallations_rejected _ _ _ e) by done. simpl.
        by rewrite notified_app, app_nil_r.
  - left. by rewrite selectedPathEffect_trace.
  - right. exists installation. unfold_handlers. simpl. by rewrite notified_app.
  - unfold after, onValueChange, getState, mbind, Handler_bind. cbn beta iota.
    destruct (findByPath value (installations (state w))) as [found|]; [|by left].
    right. exists found. unfold_handlers. simpl. by rewrite notified_app.
  - by left.
  - apply addManualInstallation_notifies.
  - apply addManualInstallation_notifies.
  - destruct (openIsFunction api) eqn:Hf.
    + destruct (open api) as [[[|c s]|]|err] eqn:Ho.
      * left. unfold after. rewrite (handleBrowseFile_cancelled _ _ (Some [])) by auto.
        simpl. by rewrite notified_app, app_nil_r.
      * unfold after. rewrite (handleBrowseFile_picked _ _ (c :: s)) by done.
        destruct (addManualInstallation_notifies api (c :: s)
                    {| state := state w; trace := trace w ++ [CallOpen] |}) as [H|[i [H Hs]]];
          unfold after in *; simpl in *; rewrite notified_app, app_nil_r in H.
        -- by left.
        -- right. by exists i.
      * left. unfold after. rewrite (handleBrowseFile_cancelled _ _ None) by auto.
        simpl. by rewrite notified_app, app_nil_r.
      * left. unfold after. rewrite (handleBrowseFile_rejected _ _ err) by done.
        simpl. by rewrite notified_app, app_nil_r.
    + left. unfold after. by rewrite handleBrowseFile_no_dialog.
  - by left.
Qed.

(** X16. No sequence of handler runs lets an exception out: every rejection
    of a collaborator is caught where it is awaited. *)
Theorem performAll_completes (api : Api) (props : Props) (acts : list Action) (w : World) :
  completion (performAll api props acts) w = Normal ().
Proof.
  revert w. induction acts as [|a acts IH]; intros w; [done|].
  simpl. pose proof (perform_completes api props a w) as Hc.
  unfold completion in *. unfold mbind, Handler_bind.
  destruct (perform api props a w) as [c w1]. simpl in *. subst c. apply IH.
Qed.

(** ** What holds in every world of a mounted component *)

Lemma loadInstallations_at_rest (api : Api) (props : Props) (w : World) :
  selectedInstallation (state w) = None →
  isValidatingManualPath (state w) = false →
  loading (state (after (loadInstallations api props) w)) = false ∧
  isValidatingManualPath (state (after (loadInstallations api props) w)) = false ∧
  (∀ i, selectedInstallation (state (after (loadInstallations api props) w)) = Some i →
        i ∈ installations (state (after (loadInstallations api props) w))).
Proof.
  intros Hsel Hv. unfold after.
  destruct (listClaudeInstallations api) as [l|e] eqn:Hl.
  - destruct (truthyPath (selectedPath props)) as [p|] eqn:Hp.
    + destruct (findByPath p l) as [found|] eqn:Hf.
      * rewrite (loadInstallations_found _ _ _ l p found) by done. simpl.
        split_and!; try done. intros i [= <-].
        destruct (findByPath_Some _ _ _ Hf) as (k & Hk & _).
        by apply list_elem_of_lookup_2 in Hk.
      * rewrite (loadInstallations_synthesized _ _ _ l p) by done. simpl.
        split_and!; try done. intros i [= <-]. apply list_elem_of_here.
    + destruct l as [|first rest].
      * rewrite loadInstallations_none by done. simpl. rewrite Hsel. done.
      * rewrite (loadInstallations_auto _ _ _ first rest) by done. simpl.
        split_and!; try done. intros i [= <-]. apply list_elem_of_here.
  - rewrite (loadInstallations_rejected _ _ _ e) by done. simpl. rewrite Hsel. done.
Qed.

Lemma addManualInstallation_at_rest (api : Api) (p : jsstring) (w : World) :
  loading (state w) = false ∧ isValidatingManualPath (state w) = false ∧
  (∀ i, selectedInstallation (state w) = Some i → i ∈ installations (state w)) →
  loading (state (after (addManualInstallation api p) w)) = false ∧
  isValidatingManualPath (state (after (addManualInstallation api p) w)) = false ∧
  (∀ i, selectedInstallation (state (after (addManualInstallation api p) w)) = Some i →
        i ∈ installations (state (after (addManualInstallation api p) w))).
Proof.
  intros (Hl & Hv & Hs). unfold after. destruct (decide (trim p = [])) as [Hp|Hp].
  - by rewrite addManualInstallation_blank.
  - destruct (setClaudeBinaryPath api (trim p)) as [[]|e] eqn:H.
    + rewrite addManualInstallation_fulfilled by done. simpl.
      split_and!; try done. intros i [= <-]. apply list_elem_of_here.
    + by rewrite (addManualInstallation_rejected _ _ _ e).
Qed.

Lemma perform_at_rest (api : Api) (props : Props) (a : Action) (w : World) :
  offered w a →
  loading (state w) = false ∧ isValidatingManualPath (state w) = false ∧
  (∀ i, selectedInstallation (state w) = Some i → i ∈ installations (state w)) →
  loading (state (after (perform api props a) w)) = false ∧
  isValidatingManualPath (state (after (perform api props a) w)) = false ∧
  (∀ i, selectedInstallation (state (after (perform api props a) w)) = Some i →
        i ∈ installations (state (after (perform api props a) w))).
Proof.
  intros Hoff Hw. pose proof Hw as (Hl & Hv & Hs). destruct a; simpl in *.
  - done.
  - destruct w as [[l ld er sel mp iv] t]. unfold_handlers. simpl in *.
    destruct (truthyPath (selectedPath props)) as [p|]; [|done].
    destruct l as [|x l]; [done|].
    destruct (findByPath p (x :: l)) as [found|] eqn:Hf; [|done]. simpl.
    split_and!; try done. intros i [= <-].
    destruct (findByPath_Some _ _ _ Hf) as (k & Hk & _).
    by apply list_elem_of_lookup_2 in Hk.
  - unfold_handlers. simpl. split_and!; try done. by intros i [= <-].
  - unfold after, onValueChange, getState, mbind, Handler_bind. cbn beta iota.
    destruct (findByPath value (installations (state w))) as [found|] eqn:Hf; [|done].
    unfold_handlers. simpl. split_and!; try done. intros i [= <-].
    destruct (findByPath_Some _ _ _ Hf) as (k & Hk & _).
    by apply list_elem_of_lookup_2 in Hk.
  - done.
  - by apply addManualInstallation_at_rest.
  - by apply addManualInstallation_at_rest.
  - destruct (openIsFunction api) eqn:Hf.
    + destruct (open api) as [[[|c s]|]|err] eqn:Ho; unfold after.
      * by rewrite (handleBrowseFile_cancelled _ _ (Some [])) by auto.
      * rewrite (handleBrowseFile_picked _ _ (c :: s)) by done.
        by apply (addManualInstallation_at_rest api (c :: s)
                    {| state := state w; trace := trace w ++ [CallOpen] |}).
      * by rewrite (handleBrowseFile_cancelled _ _ None) by auto.
      * by rewrite (handleBrowseFile_rejected _ _ err).
    + unfold after. by rewrite handleBrowseFile_no_dialog.
  - done.
Qed.

Lemma reachable_at_rest (mountApi : Api) (mountProps : Props) (w : World) :
  reachable mountApi mountProps w →
  loading (state w) = false ∧ isValidatingManualPath (state w) = false ∧
  (∀ i, selectedInstallation (state w) = Some i → i ∈ installations (state w)).
Proof.
  induction 1 as [|api props a w Hr IH Hoff].
  - by apply loadInstallations_at_rest.
  - by apply perform_at_rest.
Qed.

(** Off the mount, no handler reads what discovery answers. *)
Lemma perform_without_discovery (api : Api) (props : Props) (a : Action) (w : World) :
  offered w a →
  perform api props a w =
    perform {| listClaudeInstallations := Rejected (ThrownValue []);
               setClaudeBinaryPath := setClaudeBinaryPath api;
               openIsFunction := openIsFunction api;
               open := open api |} props a w.
Proof. by destruct a. Qed.

Lemma reachable_uniquePaths (mountApi : Api) (mountProps : Props) (w : World) :
  (∀ l, listClaudeInstallations mountApi = Fulfilled l → uniquePaths l) →
  reachable mountApi mountProps w →
  uniquePaths (installations (state w)).
Proof.
  intros Hd. induction 1 as [|api props a w Hr IH Hoff].
  - apply loadInstallations_uniquePaths; [done | constructor].
  - unfold after. rewrite perform_without_discovery by done.
    by apply perform_uniquePaths.
Qed.

(** A mounted component in which two paths were submitted. *)
Lemma reachable_example :
  reachable (Examples.acceptingApi (Fulfilled [Examples.usrBinClaude; Examples.homebrewClaude]))
    Examples.noProps
    (after (perform (Examples.rejectingApi (Fulfilled [])) Examples.noProps
              (SubmitPath (js "/tmp/not-a-file")))
       (after (perform (Examples.acceptingApi (Fulfilled [])) Examples.noProps
                 (SubmitPath (js "/usr/local/bin/claude")))
          (after (loadInstallations
                    (Examples.acceptingApi
                       (Fulfilled [Examples.usrBinClaude; Examples.homebrewClaude]))
                    Examples.noProps) initialWorld))).
Proof. repeat (apply reachable_step; [|exact I]). apply reachable_mounted. Defined.

(** X17. In every world of a mounted component the selected installation,
    when there is one, is an entry of the candidate list: the radio group
    never holds a value that none of its items has. *)
Theorem reachable_selection_listed
    (mountApi : Api) (mountProps : Props) (w : World) (i : ClaudeInstallation) :
  reachable mountApi mountProps w →
  selectedInstallation (state w) = Some i →
  i ∈ installations (state w).
Proof. intros Hr. by apply (reachable_at_rest mountApi mountProps w Hr). Qed.

Lemma reachable_selection_listed_witness :
  manualInstallationFor (js "/usr/local/bin/claude")
  ∈ installations (state
      (after (perform (Examples.rejectingApi (Fulfilled [])) Examples.noProps
                (SubmitPath (js "/tmp/not-a-file")))
         (after (perform (Examples.acceptingApi (Fulfilled [])) Examples.noProps
                   (SubmitPath (js "/usr/local/bin/claude")))
            (after (loadInstallations
                      (Examples.acceptingApi
                         (Fulfilled [Examples.usrBinClaude; Examples.homebrewClaude]))
                      Examples.noProps) initialWorld)))).
Proof.
  apply (reachable_selection_listed _ _ _ _ reachable_example). reflexivity.
Defined.

(** X18. Whatever the collaborators answer, no handler leaves a spinner on:
    once the load on mount and any handlers after it have run to their end,
    [loading] and [isValidatingManualPath] are both false. *)
Theorem reachable_spinners_off (mountApi : Api) (mountProps : Props) (w : World) :
  reachable mountApi mountProps w →
  loading (state w) = false ∧ isValidatingManualPath (state w) = false.
Proof.
  intros Hr. destruct (reachable_at_rest mountApi mountProps w Hr) as (Hl & Hv & _). done.
Qed.

Lemma reachable_spinners_off_witness :
  loading (state
      (after (perform (Examples.rejectingApi (Fulfilled [])) Examples.noProps
                (SubmitPath (js "/tmp/not-a-file")))
         (after (perform (Examples.acceptingApi (Fulfilled [])) Examples.noProps
                   (SubmitPath (js "/usr/local/bin/claude")))
            (after (loadInstallations
                      (Examples.acceptingApi
                         (Fulfilled [Examples.usrBinClaude; Examples.homebrewClaude]))
                      Examples.noProps) initialWorld)))) = false.
Proof. apply (reachable_spinners_off _ _ _ reachable_example). Defined.

(** ** What is rendered *)

Lemma filter_path_absent (l : list ClaudeInstallation) (p : jsstring) :
  p ∉ path <$> l → filter (λ x, path x = p) l = [].
Proof.
  induction l as [|y l IH]; [done|].
  rewrite fmap_cons, not_elem_of_cons. intros [Hne Hp].
  rewrite filter_cons, decide_False by done. by apply IH.
Qed.

Lemma filter_same_path_unique (l : list ClaudeInstallation) (i : ClaudeInstallation) :
  uniquePaths l → i ∈ l → filter (λ x, path x = path i) l = [i].
Proof.
  unfold uniquePaths. induction l as [|x l IH]; [by inversion 2|].
  rewrite fmap_cons, NoDup_cons. intros [Hx Hl] Hi.
  rewrite filter_cons. apply elem_of_cons in Hi as [->|Hi].
  - rewrite decide_True by done. f_equal. by apply filter_path_absent.
  - rewrite decide_False.
    + by apply IH.
    + intros Heq. apply Hx. rewrite Heq. by apply list_elem_of_fmap_2.
Qed.

Lemma filter_highlighted (props : Props) (s : State) (l : list ClaudeInstallation) :
  filter (λ c, cardHighlighted c = true) (renderCard props s <$> l)
    = renderCard props s <$>
        filter (λ x, path <$> selectedInstallation s = Some (path x)) l.
Proof.
  induction l as [|x l IH]; [done|].
  rewrite fmap_cons, !filter_cons, IH. simpl.
  destruct (decide (path <$> selectedInstallation s = Some (path x))) as [Hx|Hx].
  - rewrite bool_decide_eq_true_2 by done. by rewrite decide_True.
  - rewrite bool_decide_eq_false_2 by done. by rewrite decide_False.
Qed.

Lemma filter_current (props : Props) (s : State) (l : list ClaudeInstallation) :
  filter (λ c, cardCurrentBadge c = true) (renderCard props s <$> l)
    = renderCard props s <$> filter (λ x, selectedPath props = Some (path x)) l.
Proof.
  induction l as [|x l IH]; [done|].
  rewrite fmap_cons, !filter_cons, IH. simpl.
  destruct (decide (selectedPath props = Some (path x))) as [Hx|Hx].
  - rewrite bool_decide_eq_true_2 by done. by rewrite decide_True.
  - rewrite bool_decide_eq_false_2 by done. by rewrite decide_False.
Qed.

Lemma filter_never {A} (P : A → Prop) `{∀ x, Decision (P x)} (l : list A) :
  (∀ x, ¬ P x) → filter P l = [].
Proof.
  intros HP. induction l as [|x l IH]; [done|].
  rewrite filter_cons, decide_False by apply HP. done.
Qed.

Lemma filter_path_at_most_one (l : list ClaudeInstallation) (p : jsstring) :
  uniquePaths l → (length (filter (λ x, path x = p) l) ≤ 1)%nat.
Proof.
  intros Hl. destruct (decide (p ∈ path <$> l)) as [Hp|Hp].
  - apply list_elem_of_fmap in Hp as (i & -> & Hi).
    by rewrite filter_same_path_unique.
  - rewrite filter_path_absent by done. simpl. lia.
Qed.

(** X19. In every world of a mounted component whose discovery returned
    pairwise distinct paths, the highlighted cards are: the card of the
    selected installation and no other, when there is a selection; none, when
    there is not. *)
Theorem highlighted_card_is_selection
    (mountApi : Api) (mountProps props : Props) (w : World) :
  (∀ l, listClaudeInstallations mountApi = Fulfilled l → uniquePaths l) →
  reachable mountApi mountProps w →
  filter (λ c, cardHighlighted c = true) (renderCards props (state w)) =
    match selectedInstallation (state w) with
    | Some i => [renderCard props (state w) i]
    | None => []
    end.
Proof.
  intros Hd Hr.
  destruct (reachable_at_rest _ _ _ Hr) as (Hl & _ & Hs).
  pose proof (reachable_uniquePaths _ _ _ Hd Hr) as Hu.
  unfold renderCards. rewrite Hl, filter_highlighted.
  destruct (selectedInstallation (state w)) as [i|] eqn:Hsel; simpl.
  - rewrite (list_filter_iff _ (λ x, path x = path i)).
    + by rewrite filter_same_path_unique by auto.
    + intros x. split; [by intros [= ->] | by intros ->].
  - by rewrite filter_never.
Qed.

Lemma highlighted_card_is_selection_witness :
  filter (λ c, cardHighlighted c = true)
    (renderCards Examples.noProps (state
      (after (perform (Examples.rejectingApi (Fulfilled [])) Examples.noProps
                (SubmitPath (js "/tmp/not-a-file")))
         (after (perform (Examples.acceptingApi (Fulfilled [])) Examples.noProps
                   (SubmitPath (js "/usr/local/bin/claude")))
            (after (loadInstallations
                      (Examples.acceptingApi
                         (Fulfilled [Examples.usrBinClaude; Examples.homebrewClaude]))
                      Examples.noProps) initialWorld)))))
  = [{| cardKey := js "/usr/local/bin/claude";
        cardHighlighted := true;
        cardIcon := Plus;
        cardLabel := js "Manual Selection";
        cardVersionBadge := None;
        cardCurrentBadge := false |}].
Proof.
  rewrite (highlighted_card_is_selection
             (Examples.acceptingApi (Fulfilled [Examples.usrBinClaude; Examples.homebrewClaude]))
             Examples.noProps Examples.noProps _).
  - reflexivity.
  - intros l [= <-]. unfold uniquePaths. refine (bool_decide_unpack _ _). vm_compute. exact I.
  - exact reachable_example.
Defined.

(** X20. When the paths of the list are pairwise distinct, at most one card
    carries the [Current] badge. *)
Theorem current_badge_at_most_once (props : Props) (s : State) :
  uniquePaths (installations s) →
  (length (filter (λ c, cardCurrentBadge c = true) (renderCards props s)) ≤ 1)%nat.
Proof.
  intros Hu. unfold renderCards. destruct (loading s); [simpl; lia|].
  rewrite filter_current, length_fmap.
  destruct (selectedPath props) as [p|].
  - rewrite (list_filter_iff _ (λ x, path x = p)).
    + by apply filter_path_at_most_one.
    + intros x. split; [by intros [= ->] | by intros ->].
  - rewrite filter_never by done. simpl. lia.
Qed.

Lemma current_badge_at_most_once_witness :
  (length (filter (λ c, cardCurrentBadge c = true)
     (renderCards (Examples.persisted "/usr/bin/claude")
        (state (Examples.worldWith [Examples.usrBinClaude; Examples.homebrewClaude] None))))
   ≤ 1)%nat.
Proof.
  apply (current_badge_at_most_once (Examples.persisted "/usr/bin/claude")
           (state (Examples.worldWith [Examples.usrBinClaude; Examples.homebrewClaude] None))).
  unfold uniquePaths. refine (bool_decide_unpack _ _). vm_compute. exact I.
Defined.

(** X21. The "Use Path" button is enabled only when a click reaches the
    validator: an enabled button submits the trimmed text of the input to the
    validator, once; and when the input is blank the button is disabled and a
    submission would do nothing. *)
Theorem usePath_button_matches_submit (api : Api) (w : World) :
  (usePathDisabled (state w) = false →
     validatorCalls (trace (after (handleManualPathSubmit api) w))
       = validatorCalls (trace w) ++ [trim (manualPath (state w))]) ∧
  (trim (manualPath (state w)) = [] →
     usePathDisabled (state w) = true ∧
     handleManualPathSubmit api w = (Normal (), w)).
Proof.
  assert (handleManualPathSubmit api w = addManualInstallation api (manualPath (state w)) w)
    as Hrun by done.
  split.
  - unfold usePathDisabled. intros Hd. apply orb_false_iff in Hd as [Hd _].
    apply negb_false_iff, truthy_true_iff in Hd.
    unfold after. rewrite Hrun.
    destruct (setClaudeBinaryPath api (trim (manualPath (state w)))) as [[]|e] eqn:H.
    + rewrite addManualInstallation_fulfilled by done. simpl. by rewrite validatorCalls_app.
    + rewrite (addManualInstallation_rejected _ _ _ e) by done. simpl.
      by rewrite validatorCalls_app.
  - intros Hp. split.
    + unfold usePathDisabled. by rewrite Hp.
    + rewrite Hrun. by apply addManualInstallation_blank.
Qed.

Lemma usePath_button_matches_submit_witness :
  validatorCalls (trace (after (handleManualPathSubmit (Examples.acceptingApi (Fulfilled [])))
      (after (setManualPath (js " /usr/bin/claude ")) initialWorld)))
    = [js "/usr/bin/claude"].
Proof.
  apply (usePath_button_matches_submit (Examples.acceptingApi (Fulfilled []))
           (after (setManualPath (js " /usr/bin/claude ")) initialWorld)).
  reflexivity.
Defined.

(** X22. The key handler of the input submits on Enter without Shift and
    does nothing on any other key; its own test for a blank input changes
    nothing, since a blank submission does nothing anyway. *)
Theorem onKeyDown_submits_on_enter (api : Api) (key : jsstring) (shiftKey : bool) (w : World) :
  onKeyDown api key shiftKey w =
    if bool_decide (key = js "Enter") && negb shiftKey
    then handleManualPathSubmit api w
    else (Normal (), w).
Proof.
  unfold onKeyDown, getState, mbind, Handler_bind. cbn beta iota.
  destruct (bool_decide (key = js "Enter") && negb shiftKey); [|done]. simpl.
  destruct (truthy (trim (manualPath (state w)))) eqn:Hp; [done|].
  apply truthy_false_iff in Hp. symmetry.
  change (handleManualPathSubmit api w)
    with (addManualInstallation api (manualPath (state w)) w).
  by apply addManualInstallation_blank.
Qed.

(** X23. After a rejected submission the error card shows the message of
    the thrown [Error], or a fixed text when something else was thrown; but an
    [Error] with an empty message leaves no card at all. *)
Theorem rejected_submission_error_card
    (api : Api) (p : jsstring) (err : Thrown) (w : World) :
  loading (state w) = false →
  trim p ≠ [] →
  setClaudeBinaryPath api (trim p) = Rejected err →
  renderError (state (after (addManualInstallation api p) w)) =
    match err with
    | ThrownError [] => None
    | ThrownError message => Some message
    | ThrownValue _ => Some (js "Invalid Claude binary path")
    end.
Proof.
  intros Hl Hp H. unfold after.
  rewrite (addManualInstallation_rejected _ _ _ err) by done.
  unfold renderError. simpl. rewrite Hl. by destruct err as [[|c m]|v].
Qed.

Lemma rejected_submission_error_card_witness :
  renderError (state (after
      (addManualInstallation
         {| listClaudeInstallations := Fulfilled [];
            setClaudeBinaryPath := λ _, Rejected (ThrownError []);
            openIsFunction := true;
            open := Fulfilled None |} (js "/tmp/not-a-file"))
      (Examples.worldWith [] None)))
    = None.
Proof.
  apply (rejected_submission_error_card
           {| listClaudeInstallations := Fulfilled [];
              setClaudeBinaryPath := λ _, Rejected (ThrownError []);
              openIsFunction := true;
              open := Fulfilled None |} (js "/tmp/not-a-file") (ThrownError [])
           (Examples.worldWith [] None)).
  - reflexivity.
  - vm_compute. discriminate.
  - reflexivity.
Defined.

(** ** The updater file *)

Section UpdaterFile.
Import Updater.

Lemma findAsset_Some (pattern : jsstring) (l : list Asset) (a : Asset) :
  findAsset pattern l = Some a →
  ∃ k, l !! k = Some a ∧ includes pattern (name a) = true ∧
       ∀ j b, l !! j = Some b → (j < k)%nat → includes pattern (name b) = false.
Proof.
  unfold findAsset. intros H.
  apply fmap_Some in H as [[k x] [Hf ->]]. simpl.
  apply list_find_Some in Hf as (Hk & Hp & Hfirst).
  exists k. split_and!; try done.
  intros j b Hj Hlt. apply not_true_is_false. by apply (Hfirst j).
Qed.

Lemma findAsset_None (pattern : jsstring) (l : list Asset) :
  findAsset pattern l = None ↔ ∀ a, a ∈ l → includes pattern (name a) = false.
Proof.
  unfold findAsset. rewrite fmap_None, list_find_None, Forall_forall.
  split; intros H a Ha; [apply not_true_is_false | apply not_true_iff_false]; by apply H.
Qed.

Lemma platformEntries_elem (l : list Asset) (k : jsstring) (info : PlatformInfo) :
  (k, info) ∈ platformEntries l ↔
  ∃ pattern a, (k, pattern) ∈ platformPatterns ∧ findAsset pattern l = Some a ∧
               info = {| signature := []; url := browser_download_url a |}.
Proof.
  unfold platformEntries. rewrite list_elem_of_omap. split.
  - intros ([k' pattern] & Hin & Hsome).
    destruct (findAsset pattern l) as [a|] eqn:Hf; [|done].
    injection Hsome as <- <-. by exists pattern, a.
  - intros (pattern & a & Hin & Hf & ->). exists (k, pattern). by rewrite Hf.
Qed.

Lemma platformPatterns_functional (k pattern pattern' : jsstring) :
  (k, pattern) ∈ platformPatterns → (k, pattern') ∈ platformPatterns → pattern' = pattern.
Proof.
  intros Hk Hk'. unfold platformPatterns in Hk, Hk'.
  repeat (apply elem_of_cons in Hk as [Hk|Hk];
          [injection Hk as -> ->;
           repeat (apply elem_of_cons in Hk' as [Hk'|Hk'];
                   [vm_compute in Hk'; by simplify_eq|]);
           by apply elem_of_nil in Hk'|]).
  by apply elem_of_nil in Hk.
Qed.

Lemma platformEntries_lookup (l : list Asset) (k pattern : jsstring) (info : PlatformInfo) :
  (k, pattern) ∈ platformPatterns →
  (k, info) ∈ platformEntries l ↔
  ∃ a, findAsset pattern l = Some a ∧
       info = {| signature := []; url := browser_download_url a |}.
Proof.
  intros Hk. rewrite platformEntries_elem. split.
  - intros (pattern' & a & Hk' & Hf & ->).
    rewrite (platformPatterns_functional _ _ _ Hk Hk') in Hf. by exists a.
  - intros (a & Hf & ->). by exists pattern, a.
Qed.

(** X24. The [platforms] object of [latest.json] has an entry for a platform
    exactly when some asset name includes the pattern of that platform; the
    entry's [url] is the download address of the first such asset and its
    [signature] is empty. *)
Theorem updaterJson_platform_entries
    (release : Release) (k pattern : jsstring) :
  (k, pattern) ∈ platformPatterns →
  ((∃ a, a ∈ assets release ∧ includes pattern (name a) = true) ↔
   ∃ info, (k, info) ∈ platforms (updaterJson release)) ∧
  (∀ info, (k, info) ∈ platforms (updaterJson release) →
     signature info = [] ∧
     ∃ a i, assets release !! i = Some a ∧
            includes pattern (name a) = true ∧
            (∀ j b, assets release !! j = Some b → (j < i)%nat →
                    includes pattern (name b) = false) ∧
            url info = browser_download_url a).
Proof.
  intros Hk. simpl. split.
  - split.
    + intros (a & Ha & Hinc). destruct (findAsset pattern (assets release)) as [b|] eqn:Hf.
      * eexists. apply (platformEntries_lookup _ k pattern); [done|]. by exists b.
      * rewrite findAsset_None in Hf. rewrite (Hf a Ha) in Hinc. done.
    + intros (info & Hin).
      apply (platformEntries_lookup _ k pattern) in Hin as (a & Hf & _); [|done].
      destruct (findAsset_Some _ _ _ Hf) as (i & Hi & Hinc & _).
      exists a. split; [by apply list_elem_of_lookup_2 in Hi | done].
  - intros info Hin.
    apply (platformEntries_lookup _ k pattern) in Hin as (a & Hf & ->); [|done].
    split; [done|].
    destruct (findAsset_Some _ _ _ Hf) as (i & Hi & Hinc & Hfirst).
    by exists a, i.
Qed.

Lemma updaterJson_platform_entries_witness :
  ∃ info,
    (js "linux-x86_64", info)
    ∈ platforms (updaterJson
        {| tag_name := js "v1.0.0"; body := None; published_at := js "2025-01-01";
           assets := [{| name := js "claudia-macos-universal.dmg";
                         browser_download_url := js "https://example.org/a.dmg" |};
                      {| name := js "claudia-linux-x86_64.AppImage";
                         browser_download_url := js "https://example.org/a.AppImage" |}] |}).
Proof.
  apply (updaterJson_platform_entries
           {| tag_name := js "v1.0.0"; body := None; published_at := js "2025-01-01";
              assets := [{| name := js "claudia-macos-universal.dmg";
                            browser_download_url := js "https://example.org/a.dmg" |};
                         {| name := js "claudia-linux-x86_64.AppImage";
                            browser_download_url := js "https://example.org/a.AppImage" |}] |}
           (js "linux-x86_64") (js "linux-x86_64")).
  - unfold platformPatterns. do 2 apply list_elem_of_further. apply list_elem_of_here.
  - eexists. split; [apply list_elem_of_further, list_elem_of_here | reflexivity].
Defined.

(** X25. The platforms of [latest.json] come in the order of the script's
    table, each at most once. *)
Theorem updaterJson_platforms_ordered (release : Release) :
  sublist (platforms (updaterJson release)).*1 platformPatterns.*1 ∧
  NoDup (platforms (updaterJson release)).*1.
Proof.
  assert (sublist (platformEntries (assets release)).*1 platformPatterns.*1) as Hsub.
  { unfold platformEntries. induction platformPatterns as [|[k pattern] t IH]; [done|].
    simpl. destruct (findAsset pattern (assets release)); simpl.
    - by apply sublist_skip.
    - by apply sublist_cons. }
  split; [done|].
  eapply sublist_NoDup; [|exact Hsub].
  refine (bool_decide_unpack _ _). vm_compute. exact I.
Qed.

#[local] Arguments startsWith : simpl nomatch.
#[local] Arguments includes : simpl nomatch.

Ltac eval_js :=
  repeat match goal with
         | |- context [js ?s] =>
             let v := eval vm_compute in (js s) in change (js s) with v
         | H : context [js ?s] |- _ =>
             let v := eval vm_compute in (js s) in change (js s) with v in H
         end.

(** Whether the name an artifact is uploaded under includes the pattern of
    a platform, for an extension without a hyphen. *)
Lemma includes_artifact_name (pattern base ext : jsstring) :
  pattern ∈ platformPatterns.*2 →
  base ∈ artifactNames →
  45 ∉ ext →
  includes pattern (finalName base ext) =
    bool_decide (base = js "claudia-" ++ pattern).
Proof.
  intros Hp Hb Hext.
  assert (∀ p, 45 ∈ p → includes p ext = false) as Hmiss.
  { intros p Hin. by apply (includes_missing_char p ext 45). }
  assert (45 ∈ js "macos-intel") as H1
    by (refine (bool_decide_unpack _ _); vm_compute; exact I).
  assert (45 ∈ js "macos-apple-silicon") as H2
    by (refine (bool_decide_unpack _ _); vm_compute; exact I).
  assert (45 ∈ js "linux-x86_64") as H3
    by (refine (bool_decide_unpack _ _); vm_compute; exact I).
  assert (45 ∈ js "windows-x86_64") as H4
    by (refine (bool_decide_unpack _ _); vm_compute; exact I).
  apply Hmiss in H1, H2, H3, H4. clear Hmiss.
  unfold platformPatterns in Hp. simpl in Hp. unfold artifactNames in Hb. simpl in Hb.
  repeat (apply elem_of_cons in Hp as [->|Hp];
          [repeat (apply elem_of_cons in Hb as [->|Hb];
                   [unfold finalName;
                    match goal with
                    | |- _ = ?r => let v := eval vm_compute in r in change r with v
                    end;
                    eval_js; simpl;
                    rewrite ?(startsWith_missing_char _ ext 45)
                      by (done || (refine (bool_decide_unpack _ _); vm_compute; exact I));
                    rewrite ?H1, ?H2, ?H3, ?H4; done|]);
           by apply elem_of_nil in Hb|]).
  by apply elem_of_nil in Hp.
Qed.

(** X26. When every asset of a release carries a name the release workflow
    gives ([artifact-name] followed by an extension without a hyphen),
    [latest.json] has no macOS entry: its platforms are among [linux-x86_64]
    and [windows-x86_64], and each of the two is there exactly when the
    matching artifact is among the assets, with the address of the first such
    asset. *)
Theorem updaterJson_of_released_assets (release : Release) :
  (∀ a, a ∈ assets release →
     ∃ base ext, base ∈ artifactNames ∧ name a = finalName base ext ∧ 45 ∉ ext) →
  (∀ k info, (k, info) ∈ platforms (updaterJson release) →
     k = js "linux-x86_64" ∨ k = js "windows-x86_64") ∧
  (∀ k, k = js "linux-x86_64" ∨ k = js "windows-x86_64" →
     ((∃ a ext, a ∈ assets release ∧ name a = finalName (js "claudia-" ++ k) ext) ↔
      ∃ info, (k, info) ∈ platforms (updaterJson release)) ∧
     (∀ info, (k, info) ∈ platforms (updaterJson release) →
        ∃ a ext, a ∈ assets release ∧ name a = finalName (js "claudia-" ++ k) ext ∧
                 url info = browser_download_url a)).
Proof.
  intros Hnames.
  assert (∀ pattern a, pattern ∈ platformPatterns.*2 → a ∈ assets release →
            includes pattern (name a) = true →
            ∃ ext, name a = finalName (js "claudia-" ++ pattern) ext) as Hinc.
  { intros pattern a Hp Ha Hi. destruct (Hnames a Ha) as (base & ext & Hb & Hn & Hext).
    rewrite Hn, includes_artifact_name in Hi by done.
    apply bool_decide_eq_true in Hi as ->. by exists ext. }
  assert (∀ pattern (a : Asset) ext,
            name a = finalName (js "claudia-" ++ pattern) ext →
            includes pattern (name a) = true) as Hback.
  { intros pattern a ext Hn. apply includes_spec. exists (js "claudia-"), ext.
    rewrite Hn. unfold finalName. by rewrite <- app_assoc. }
  split.
  - intros k info Hin. simpl in Hin.
    apply platformEntries_elem in Hin as (pattern & a & Hk & Hf & _).
    destruct (findAsset_Some _ _ _ Hf) as (i & Hi & Hincl & _).
    apply list_elem_of_lookup_2 in Hi.
    assert (pattern ∈ platformPatterns.*2) as Hp
      by (apply list_elem_of_fmap; by exists (k, pattern)).
    destruct (Hinc pattern a Hp Hi Hincl) as [ext Hn].
    destruct (Hnames a Hi) as (base & ext' & Hb & Hn' & Hext).
    unfold platformPatterns in Hk.
    repeat (apply elem_of_cons in Hk as [Hk|Hk]; [injection Hk as -> ->|]);
      [| |by left|by right|by apply elem_of_nil in Hk].
    + rewrite Hn', includes_artifact_name in Hincl by done.
      apply bool_decide_eq_true in Hincl. subst base.
      assert (bool_decide (js "claudia-" ++ js "macos-intel" ∈ artifactNames) = false) as Hd
        by (by vm_compute).
      by apply bool_decide_eq_false in Hd.
    + rewrite Hn', includes_artifact_name in Hincl by done.
      apply bool_decide_eq_true in Hincl. subst base.
      assert (bool_decide (js "claudia-" ++ js "macos-apple-silicon" ∈ artifactNames) = false) as Hd
        by (by vm_compute).
      by apply bool_decide_eq_false in Hd.
  - intros k Hk.
    assert ((k, k) ∈ platformPatterns ∧ js "claudia-" ++ k ∈ artifactNames) as [Hkk Hart].
    { destruct Hk as [-> | ->]; split;
        refine (bool_decide_unpack _ _); vm_compute; exact I. }
    assert (k ∈ platformPatterns.*2) as Hp
      by (apply list_elem_of_fmap; by exists (k, k)).
    assert (∀ info, (k, info) ∈ platformEntries (assets release) →
              ∃ a ext, a ∈ assets release ∧ name a = finalName (js "claudia-" ++ k) ext ∧
                       url info = browser_download_url a) as Hurl.
    { intros info Hin.
      apply (platformEntries_lookup _ k k) in Hin as (a & Hf & ->); [|done].
      destruct (findAsset_Some _ _ _ Hf) as (i & Hi & Hincl & _).
      apply list_elem_of_lookup_2 in Hi.
      destruct (Hinc k a Hp Hi Hincl) as [ext Hn]. by exists a, ext. }
    simpl. split; [|done]. split.
    + intros (a & ext & Ha & Hn).
      destruct (findAsset k (assets release)) as [b|] eqn:Hf.
      * eexists. apply (platformEntries_lookup _ k k); [done|]. by exists b.
      * rewrite findAsset_None in Hf. specialize (Hf a Ha).
        by rewrite (Hback k a ext Hn) in Hf.
    + intros (info & Hin). destruct (Hurl info Hin) as (a & ext & Ha & Hn & _).
      by exists a, ext.
Qed.

Lemma updaterJson_of_released_assets_witness :
  Forall (λ entry, entry.1 = js "linux-x86_64" ∨ entry.1 = js "windows-x86_64")
    (platforms (updaterJson
        {| tag_name := js "v1.0.0"; body := None; published_at := js "2025-01-01";
           assets := [{| name := js "claudia-macos-universal.dmg";
                         browser_download_url := js "https://example.org/a.dmg" |};
                      {| name := js "claudia-windows-x86_64.msi";
                         browser_download_url := js "https://example.org/a.msi" |};
                      {| name := js "claudia-linux-x86_64.AppImage";
                         browser_download_url := js "https://example.org/a.AppImage" |}] |})).
Proof.
  apply Forall_forall. intros [k info].
  apply (updaterJson_of_released_assets
           {| tag_name := js "v1.0.0"; body := None; published_at := js "2025-01-01";
              assets := [{| name := js "claudia-macos-universal.dmg";
                            browser_download_url := js "https://example.org/a.dmg" |};
                         {| name := js "claudia-windows-x86_64.msi";
                            browser_download_url := js "https://example.org/a.msi" |};
                         {| name := js "claudia-linux-x86_64.AppImage";
                            browser_download_url := js "https://example.org/a.AppImage" |}] |}).
  intros a Ha. simpl in Ha.
  apply elem_of_cons in Ha as [->|Ha];
    [exists (js "claudia-macos-universal"), (js ".dmg")|].
  2: apply elem_of_cons in Ha as [->|Ha];
    [exists (js "claudia-windows-x86_64"), (js ".msi")|].
  3: apply elem_of_cons in Ha as [->|Ha];
    [exists (js "claudia-linux-x86_64"), (js ".AppImage")|by apply elem_of_nil in Ha].
  all: split_and!; [refine (bool_decide_unpack _ _); vm_compute; exact I
                   | reflexivity
                   | apply (bool_decide_eq_false_1 _); by vm_compute].
Defined.

(** X27. A version made of the letter [v], digits and dots only is never
    marked as a prerelease. *)
Theorem prerelease_plain_version (version : jsstring) :
  Forall (λ c, c = 118 ∨ c = 46 ∨ (48 ≤ c ∧ c ≤ 57)) version →
  prerelease version = false.
Proof.
  intros Hv.
  assert (∀ c, (97 ≤ c ∧ c ≤ 117) → c ∉ version) as Hletters.
  { intros c Hc Hin. rewrite Forall_forall in Hv. specialize (Hv c Hin). lia. }
  unfold prerelease.
  rewrite (includes_missing_char (js "beta") version 98),
          (includes_missing_char (js "alpha") version 97),
          (includes_missing_char (js "rc") version 114); try done;
    first [by (apply Hletters; lia)
          | refine (bool_decide_unpack _ _); vm_compute; exact I].
Qed.

Lemma prerelease_plain_version_witness : prerelease (js "v1.12.0") = false.
Proof.
  apply (prerelease_plain_version (js "v1.12.0")).
  eval_js. repeat (constructor; [lia|]). constructor.
Defined.

End UpdaterFile.
